(** * docmanager-extension: dirty-state tracking and the delete-file command

    A shallow embedding of [packages/docmanager-extension/src/index.ts]:
    - [handleContext] (lines 312-337), the closure that binds one document
      context to the application's dirty indicator;
    - [opener.open] (lines 83-102), which decides when [handleContext] runs,
      through the [contexts] set;
    - the [docmanager:delete-file] command (lines 146-157);
    - [opener.open] with the widget's id, dataset and shell calls, and the
      [Private.id] counter (lines 83-102, 343-349);
    - the new-untitled, open, restore-checkpoint, save, save-as, rename and
      clone commands of [addCommands] (lines 127-130, 159-285).
    The document context itself is not in the package; what its disposal
    does to the registered handlers is modelled apart ([context_dispose]).

    JavaScript callbacks run one at a time, so a run of the program is a list
    of callback invocations ("events"); what a callback reads from a
    collaborator (the value of [context.model.dirty], the arguments of a
    notification) comes with the event. *)

From Stdlib Require Import Floats.PrimFloat.
From stdpp Require Import gmap strings list pretty.

Set Warnings "-register-all".

(** ** JavaScript values *)

(** The values a notification or a command argument can carry.  Numbers are
    binary64 floats, as in JavaScript. *)
Inductive JSValue : Type :=
  | VUndefined
  | VNull
  | VBool (b : bool)
  | VNumber (f : float)
  | VString (s : string)
  | VArray (items : list JSValue)
  | VObject (fields : list (string * JSValue)).

(** [v === true] *)
Definition strict_true (v : JSValue) : bool :=
  match v with
  | VBool true => true
  | _ => false
  end.

(** [typeof v === 'undefined'] *)
Definition typeof_undefined (v : JSValue) : bool :=
  match v with
  | VUndefined => true
  | _ => false
  end.

(** JavaScript's ToBoolean: [undefined], [null], [false], [0], [-0], [NaN]
    and the empty string are falsy, everything else is truthy. *)
Definition truthy (v : JSValue) : bool :=
  match v with
  | VUndefined | VNull => false
  | VBool b => b
  | VNumber f => negb (PrimFloat.eqb f 0%float || PrimFloat.is_nan f)
  | VString s => negb (String.eqb s "")
  | VArray _ | VObject _ => true
  end.

(** ** The host application's dirty indicator *)

(** A token is the [IDisposable] object returned by one call of
    [app.setDirty()]; each call returns a new object, named here by its
    number. *)
Definition Token := nat.

(** The two calls [handleContext] makes on the host. *)
Inductive Call : Type :=
  | SetDirty (t : Token)   (* [app.setDirty()], returning token [t] *)
  | Dispose (t : Token).   (* [t.dispose()] *)

#[global] Instance Call_eq_dec : EqDecision Call.
Proof. solve_decision. Defined.

(** Modelled from the spec: the host shell's [setDirty() -> DisposableToken]
    is not in this package.  It is modelled as the recording indicator of the
    specification's design notes: it hands out fresh tokens and records every
    acquire and release call, oldest first. *)
Record Host : Type := mkHost {
  next_token : Token;
  calls : list Call
}.

Definition new_host : Host := mkHost 0 [].

Definition setDirty (h : Host) : Token * Host :=
  (next_token h, mkHost (S (next_token h)) (calls h ++ [SetDirty (next_token h)])).

Definition dispose (t : Token) (h : Host) : Host :=
  mkHost (next_token h) (calls h ++ [Dispose t]).

(** ** [handleContext] *)

(** [IChangedArgs]: the argument of a [stateChanged] notification. *)
Record IChangedArgs : Type := mkArgs {
  name : string;
  oldValue : JSValue;
  newValue : JSValue
}.

(** The state [handleContext] leaves behind for one context: the closure
    variable [disposable] and the three registrations it makes or schedules. *)
Record Tracker : Type := mkTracker {
  disposable : option Token;        (* [let disposable: IDisposable | null] *)
  ready_pending : bool;             (* the [context.ready.then] callback has not run yet *)
  stateChanged_connected : bool;    (* [onStateChanged] is connected to [model.stateChanged] *)
  disposed_connected : bool         (* the disposal handler is connected to [context.disposed] *)
}.

(** The callbacks that can be invoked for a context. *)
Inductive Event : Type :=
  | Ready (model_dirty : bool)       (* [context.ready] resolves; [context.model.dirty] reads [model_dirty] *)
  | StateChanged (args : IChangedArgs)  (* [context.model.stateChanged] emits [args] *)
  | Disposed.                        (* [context.disposed] emits *)

(** The body of [handleContext] (lines 312-337): [disposable] starts as
    [null], the readiness callback is registered with [then] and the disposal
    handler is connected, all before the function returns. *)
Definition handleContext : Tracker :=
  {| disposable := None;
     ready_pending := true;
     stateChanged_connected := false;
     disposed_connected := true |}.

(** [onStateChanged] (lines 314-325). *)
Definition onStateChanged (args : IChangedArgs) (st : Tracker * Host) : Tracker * Host :=
  let (tr, h) := st in
  if String.eqb (name args) "dirty" then
    if strict_true (newValue args) then
      match disposable tr with
      | None =>
          let (t, h') := setDirty h in
          (mkTracker (Some t) (ready_pending tr) (stateChanged_connected tr) (disposed_connected tr), h')
      | Some _ => (tr, h)
      end
    else
      match disposable tr with
      | Some t =>
          (mkTracker None (ready_pending tr) (stateChanged_connected tr) (disposed_connected tr),
           dispose t h)
      | None => (tr, h)
      end
  else (tr, h).

(** The readiness callback (lines 326-331): connect [onStateChanged], then
    reconcile with the current value of [context.model.dirty]. *)
Definition onReady (model_dirty : bool) (st : Tracker * Host) : Tracker * Host :=
  let (tr, h) := st in
  if model_dirty then
    let (t, h') := setDirty h in
    (mkTracker (Some t) false true (disposed_connected tr), h')
  else
    (mkTracker (disposable tr) false true (disposed_connected tr), h).

(** The disposal handler (lines 332-336).  It calls [dispose] on the token in
    [disposable], if any, and changes nothing else. *)
Definition onDisposed (st : Tracker * Host) : Tracker * Host :=
  let (tr, h) := st in
  match disposable tr with
  | Some t => (tr, dispose t h)
  | None => (tr, h)
  end.

(** Delivery of one event to the handlers: a promise runs its [then]
    callback once, a signal calls the slots connected to it.  The handlers
    themselves never disconnect; what a disposed context still delivers is
    for [emit] below. *)
Definition deliver (e : Event) (st : Tracker * Host) : Tracker * Host :=
  match e with
  | Ready d => if ready_pending (fst st) then onReady d st else st
  | StateChanged args => if stateChanged_connected (fst st) then onStateChanged args st else st
  | Disposed => if disposed_connected (fst st) then onDisposed st else st
  end.

(** A run: the events are delivered in order. *)
Definition run (st : Tracker * Host) (evs : list Event) : Tracker * Host :=
  foldl (fun s e => deliver e s) st evs.

(** The state right after [handleContext(app, context)] returned, on a host
    that has made no call yet. *)
Definition tracked : Tracker * Host := (handleContext, new_host).

(** A [dirty] notification with the given new value. *)
Definition dirty_changed (b : bool) : Event :=
  StateChanged (mkArgs "dirty" (VBool (negb b)) (VBool b)).

(** ** What the host's record says *)

(** Tokens handed out, and tokens whose [dispose] was called, oldest first. *)
Definition acquired (cs : list Call) : list Token :=
  omap (fun c => match c with SetDirty t => Some t | Dispose _ => None end) cs.

Definition released (cs : list Call) : list Token :=
  omap (fun c => match c with Dispose t => Some t | SetDirty _ => None end) cs.

(** The tokens that hold the indicator: handed out and never disposed. *)
Definition held_tokens (cs : list Call) : list Token :=
  filter (fun t => t ∉ released cs) (acquired cs).

(** The dirty indicator is held (on behalf of the one context the host
    serves in a run from [tracked]). *)
Definition holds (h : Host) : bool :=
  bool_decide (held_tokens (calls h) ≠ []).

(** Matched pairs: reading the record from the start, an acquire comes only
    when no token is open, and a release disposes exactly the open token.
    [Some o] is the open token after a well-paired record, [None] marks a
    record that is not well paired. *)
Definition pair_step (acc : option (option Token)) (c : Call) : option (option Token) :=
  match acc, c with
  | Some None, SetDirty t => Some (Some t)
  | Some (Some t'), Dispose t => if decide (t = t') then Some None else None
  | _, _ => None
  end.

Definition pairing (cs : list Call) : option (option Token) :=
  foldl pair_step (Some None) cs.

(** ** What the context's history says *)

Definition is_ready (e : Event) : bool :=
  match e with Ready _ => true | _ => false end.

Definition is_disposed (e : Event) : bool :=
  match e with Disposed => true | _ => false end.

(** Some event of the run is a readiness resolution / a disposal. *)
Definition resolves (evs : list Event) : bool := existsb is_ready evs.
Definition was_disposed (evs : list Event) : bool := existsb is_disposed evs.

(** The collaborator contract on disposal: it is terminal, no event is
    delivered after it. *)
Fixpoint disposal_terminal (evs : list Event) : bool :=
  match evs with
  | [] => true
  | Disposed :: rest => match rest with [] => true | _ :: _ => false end
  | _ :: rest => disposal_terminal rest
  end.

(** A notification that is not [dirty = false]: another property changed, or
    [dirty] became [true]. *)
Definition not_dirty_false (a : IChangedArgs) : bool :=
  negb (String.eqb (name a) "dirty") || strict_true (newValue a).

(** The dirty values the tracker observes.  It observes [model.dirty] once,
    when readiness resolves, and from then on the new value of every
    [dirty] notification; notifications emitted before readiness are not
    observed (nothing is subscribed).  The first component says whether
    readiness has resolved, the second is the last observed value. *)
Definition observe (acc : bool * option bool) (e : Event) : bool * option bool :=
  match e with
  | Ready d => if fst acc then acc else (true, Some d)
  | StateChanged a =>
      if fst acc && String.eqb (name a) "dirty"
      then (fst acc, Some (strict_true (newValue a)))
      else acc
  | Disposed => acc
  end.

Definition last_observed (evs : list Event) : option bool :=
  snd (foldl observe (false, None) evs).

(** The first testable property of the specification, at the end of the run
    [evs]: the indicator is held iff the last observed dirty value is [true]
    and the context has not been disposed. *)
Definition no_hold_without_dirt (evs : list Event) : Prop :=
  holds (snd (run tracked evs)) = true ↔
  last_observed evs = Some true ∧ was_disposed evs = false.

(** ** [opener.open] and the [contexts] set *)

(** A context is named by its identity. *)
Definition Context := nat.

(** How a function call completes. *)
Inductive Completion (A : Type) : Type :=
  | Normal (a : A)
  | Throw (message : string).
Arguments Normal {A} a.
Arguments Throw {A} message.

(** The plugin's state: the [contexts] set (a [WeakSet], membership by
    identity), one [Tracker] per call of [handleContext], in call order, and
    the application. *)
Record World : Type := mkWorld {
  contexts : gset Context;
  trackers : list (Context * Tracker);
  host : Host
}.

Definition new_world : World := mkWorld ∅ [] new_host.

(** The dirty-state part of [opener.open] (lines 96-101); [context] is what
    [docManager.contextForWidget(widget)] returned.  The shell calls before
    it (lines 84-94) touch neither [contexts] nor the trackers.  With a
    [null] context [contexts.has] is false and [handleContext] throws a
    [TypeError] reading [context.ready]. *)
Definition opener_open (context : option Context) (w : World) : Completion World :=
  match context with
  | None => Throw "TypeError"
  | Some c =>
      if decide (c ∈ contexts w) then Normal w
      else Normal (mkWorld ({[c]} ∪ contexts w) (trackers w ++ [(c, handleContext)]) (host w))
  end.

(** An event of context [c] reaches every tracker made for [c]; they share
    the application. *)
Fixpoint notify_trackers (c : Context) (e : Event) (ts : list (Context * Tracker)) (h : Host)
  : list (Context * Tracker) * Host :=
  match ts with
  | [] => ([], h)
  | (c', tr) :: rest =>
      if decide (c' = c) then
        let (tr', h') := deliver e (tr, h) in
        let (rest', h'') := notify_trackers c e rest h' in
        ((c', tr') :: rest', h'')
      else
        let (rest', h'') := notify_trackers c e rest h in
        ((c', tr) :: rest', h'')
  end.

Definition notify (c : Context) (e : Event) (w : World) : World :=
  let (ts, h) := notify_trackers c e (trackers w) (host w) in
  mkWorld (contexts w) ts h.

Inductive Action : Type :=
  | Open (context : option Context)    (* [opener.open(widget)] *)
  | Notify (c : Context) (e : Event).  (* an event of context [c] *)

(** One action; an exception thrown by [open] leaves the state as it was. *)
Definition act (w : World) (a : Action) : World :=
  match a with
  | Open context =>
      match opener_open context w with
      | Normal w' => w'
      | Throw _ => w
      end
  | Notify c e => notify c e w
  end.

Definition world_run (w : World) (acts : list Action) : World := foldl act w acts.

(** ** The [docmanager:delete-file] command *)

Module CommandIDs.
Definition deleteFile : string := "docmanager:delete-file".
End CommandIDs.

Section DeleteFile.
(** [docManager.deleteFile], whose result the command hands back. *)
Context {R : Type} (docManager_deleteFile : JSValue → R).

(** [args['path']]: a missing key reads as [undefined]. *)
Definition arg (args : gmap string JSValue) (key : string) : JSValue :=
  default VUndefined (args !! key).

(** The [execute] function (lines 147-156).  The result pairs the
    arguments of the calls made to [docManager.deleteFile] with the
    completion of the command.  The cast [as string] does nothing at run
    time. *)
Definition deleteFile_execute (args : gmap string JSValue) : list JSValue * Completion R :=
  let path := if typeof_undefined (arg args "path") then VString "" else arg args "path" in
  if negb (truthy path) then
    ([], Throw ("A non-empty path is required for " +:+ CommandIDs.deleteFile +:+ "."))
  else
    ([path], Normal (docManager_deleteFile path)).
End DeleteFile.

(** The claim about [docmanager:delete-file] as stated: a missing or empty
    path throws without calling [deleteFile], any other path is delegated. *)
Definition deleteFile_as_stated {R : Type} (deleteFile : JSValue → R)
    (args : gmap string JSValue) : Prop :=
  (args !! "path" = None ∨ args !! "path" = Some (VString "") →
   ∃ message, deleteFile_execute deleteFile args = ([], Throw message)) ∧
  (¬ (args !! "path" = None ∨ args !! "path" = Some (VString "")) →
   ∀ path, args !! "path" = Some path →
   deleteFile_execute deleteFile args = ([path], Normal (deleteFile path))).

(** ** Invariants of a run *)

(** What every run from [tracked] keeps, whatever is delivered: tokens are
    numbered in the order they are handed out, only handed-out tokens are
    disposed, and a token that still holds the indicator is the one in
    [disposable]. *)
Record sound (st : Tracker * Host) : Prop := mkSound {
  sound_fresh : acquired (calls (snd st)) = seq 0 (next_token (snd st));
  sound_released : ∀ t, t ∈ released (calls (snd st)) → t ∈ acquired (calls (snd st));
  sound_disposable : ∀ t, disposable (fst st) = Some t → t ∈ acquired (calls (snd st));
  sound_held : ∀ t, t ∈ held_tokens (calls (snd st)) → disposable (fst st) = Some t;
  sound_pending : ready_pending (fst st) = true →
                  disposable (fst st) = None ∧ calls (snd st) = [];
  sound_connected : stateChanged_connected (fst st) = negb (ready_pending (fst st));
  sound_disposed : disposed_connected (fst st) = true
}.

(** What a run keeps as long as no disposal was delivered: the token in
    [disposable] has not been disposed, and the record is well paired with
    that token open. *)
Record live (st : Tracker * Host) : Prop := mkLive {
  live_sound : sound st;
  live_token : ∀ t, disposable (fst st) = Some t → t ∉ released (calls (snd st));
  live_pairing : pairing (calls (snd st)) = Some (disposable (fst st))
}.

(** The tracker and the observer of the history agree: readiness has
    resolved iff [onStateChanged] is connected, and a token is in
    [disposable] iff the last observed dirty value is [true]. *)
Definition agrees (st : Tracker * Host) (ob : bool * option bool) : Prop :=
  stateChanged_connected (fst st) = fst ob ∧
  (is_Some (disposable (fst st)) ↔ snd ob = Some true).

(** The trackers of a world were made for distinct contexts, the contexts in
    the [contexts] set. *)
Definition tracked_once (w : World) : Prop :=
  NoDup (trackers w).*1 ∧ ∀ c, c ∈ contexts w ↔ c ∈ (trackers w).*1.

(** ** Further notions for the tracker and the plugin *)

(** An event that cannot make the tracker acquire: readiness with a clean
    model, a notification that is not [dirty = true], a disposal. *)
Definition never_dirty (e : Event) : bool :=
  match e with
  | Ready d => negb d
  | StateChanged a => negb (String.eqb (name a) "dirty" && strict_true (newValue a))
  | Disposed => true
  end.

(** An event [onStateChanged] does not filter out: anything but a
    notification about another property than [dirty]. *)
Definition about_dirty (e : Event) : bool :=
  match e with
  | StateChanged a => String.eqb (name a) "dirty"
  | _ => true
  end.

(** The events that reach the tracker of context [c] in a run of the plugin:
    those notified for [c] after [opener.open] first saw [c] (before that no
    [handleContext] ran, nothing is registered on the context).  The first
    component says whether [c] has been opened. *)
Definition history_step (c : Context) (acc : bool * list Event) (a : Action)
  : bool * list Event :=
  match a with
  | Open (Some c') => if decide (c' = c) then (true, snd acc) else acc
  | Open None => acc
  | Notify c' e => if fst acc && bool_decide (c' = c) then (fst acc, snd acc ++ [e]) else acc
  end.

Definition opened (c : Context) (acts : list Action) : bool :=
  fst (foldl (history_step c) (false, []) acts).

Definition history (c : Context) (acts : list Action) : list Event :=
  snd (foldl (history_step c) (false, []) acts).

(** Two trackers in the same situation, up to the name of the token. *)
Definition similar (tr1 tr2 : Tracker) : Prop :=
  ready_pending tr1 = ready_pending tr2 ∧
  stateChanged_connected tr1 = stateChanged_connected tr2 ∧
  disposed_connected tr1 = disposed_connected tr2 ∧
  (is_Some (disposable tr1) ↔ is_Some (disposable tr2)).

(** The registrations of a tracker are in order: the disposal handler is
    connected, [onStateChanged] is connected once readiness resolved, and
    until then [disposable] is [null]. *)
Definition well_formed (tr : Tracker) : Prop :=
  (ready_pending tr = true → disposable tr = None) ∧
  disposed_connected tr = true ∧
  stateChanged_connected tr = negb (ready_pending tr).

(** What delivering [e] to a tracker can do to it and to the application,
    whoever else uses the application. *)
Inductive effect (e : Event) (tr : Tracker) (h : Host) : Tracker * Host → Prop :=
  | effect_none tr' :
      disposable tr' = disposable tr →
      (is_disposed e = true → disposable tr = None) →
      effect e tr h (tr', h)
  | effect_acquire tr' :
      disposable tr = None → is_disposed e = false →
      disposable tr' = Some (next_token h) →
      effect e tr h (tr', snd (setDirty h))
  | effect_release t tr' :
      disposable tr = Some t → is_disposed e = false →
      disposable tr' = None →
      effect e tr h (tr', dispose t h)
  | effect_dispose t :
      disposable tr = Some t → is_disposed e = true →
      effect e tr h (tr, dispose t h).

(** What every run of the plugin keeps, whatever is delivered: the trackers
    share the application without sharing tokens, and a token that holds the
    indicator is in the [disposable] of some tracker. *)
Record world_sound (w : World) : Prop := mkWorldSound {
  ws_once : tracked_once w;
  ws_fresh : acquired (calls (host w)) = seq 0 (next_token (host w));
  ws_released : ∀ t, t ∈ released (calls (host w)) → t ∈ acquired (calls (host w));
  ws_owned : ∀ c tr t, (c, tr) ∈ trackers w → disposable tr = Some t →
             t ∈ acquired (calls (host w));
  ws_held : ∀ t, t ∈ held_tokens (calls (host w)) →
            ∃ c tr, (c, tr) ∈ trackers w ∧ disposable tr = Some t;
  ws_wf : ∀ c tr, (c, tr) ∈ trackers w → well_formed tr;
  ws_distinct : ∀ c c' tr tr' t, (c, tr) ∈ trackers w → (c', tr') ∈ trackers w →
                disposable tr = Some t → disposable tr' = Some t → c = c'
}.

(** The disposal contract for every context of a run of the plugin. *)
Definition disposals_terminal (acts : list Action) : Prop :=
  ∀ c, disposal_terminal (history c acts) = true.

(** Under the contract, the token of a tracker has been disposed exactly
    when its context has. *)
Definition world_live (acts : list Action) (w : World) : Prop :=
  ∀ c tr t, (c, tr) ∈ trackers w → disposable tr = Some t →
            (t ∈ released (calls (host w)) ↔ was_disposed (history c acts) = true).

(** ** [opener.open], the widget side *)

(** A document widget, as far as [opener.open] and the commands read and
    write it; [contextForWidget] is what [docManager.contextForWidget]
    returns for it ([None] when it returns no context). *)
Record Widget : Type := mkWidget {
  widget_id : string;                    (* [widget.id] *)
  title_dataset : gmap string string;    (* [widget.title.dataset] *)
  isAttached : bool;                     (* [widget.isAttached] *)
  contextForWidget : option Context
}.

(** The calls [opener.open] makes on the application shell; the widget
    passed to [addToMainArea] is named by the id it has at the call. *)
Inductive ShellCall : Type :=
  | AddToMainArea (id : string)
  | ActivateById (id : string).

Module Private.
(** [let id = 0]: the counter for unique ids. *)
Definition id : N := 0.

(** [++Private.id].  The counter is a binary64 number that only ever holds
    whole numbers: below [2^53] adding one is exact, at [2^53] the sum
    rounds back to [2^53]. *)
Definition increment (n : N) : N := if (n <? 2 ^ 53)%N then (n + 1)%N else n.
End Private.

(** The plugin with its counter and the shell calls made so far. *)
Record Session : Type := mkSession {
  private_id : N;
  shell_calls : list ShellCall;
  tracking : World
}.

Definition new_session : Session := mkSession Private.id [] new_world.

(** [opener.open] (lines 83-102) in full: the widget as it is left, the
    session, and how the call completes.  A whole number prints in decimal
    in the template literal.  In the object spread the entries of the old
    dataset come last, so they win over the default ['type'].  What was done
    before [handleContext] throws stays done. *)
Definition opener_open_widget (w : Widget) (s : Session)
  : Widget * Session * Completion unit :=
  let counter :=
    if String.eqb (widget_id w) "" then Private.increment (private_id s) else private_id s in
  let id :=
    if String.eqb (widget_id w) "" then "document-manager-" +:+ pretty counter
    else widget_id w in
  let dataset := title_dataset w ∪ {["type" := "document-title"]} in
  let w' := mkWidget id dataset (isAttached w) (contextForWidget w) in
  let shell := shell_calls s ++ (if isAttached w then [] else [AddToMainArea id])
                             ++ [ActivateById id] in
  match opener_open (contextForWidget w) (tracking s) with
  | Normal t => (w', mkSession counter shell t, Normal ())
  | Throw message => (w', mkSession counter shell (tracking s), Throw message)
  end.

(** Widgets opened one after the other. *)
Fixpoint open_all (ws : list Widget) (s : Session) : list Widget * Session :=
  match ws with
  | [] => ([], s)
  | w :: rest =>
      let '(w', s', _) := opener_open_widget w s in
      let (rest', s'') := open_all rest s' in
      (w' :: rest', s'')
  end.

(** ** The other commands of [addCommands] *)

(** What [docManager.contextForWidget] returns for a widget that has no
    context: [null], as its declared type has it, or [undefined].  Both are
    falsy and both make [handleContext] throw on [context.ready]; they
    differ under [!== null]. *)
Inductive Absent : Type :=
  | AbsentNull
  | AbsentUndefined.

(** [a || b] *)
Definition js_or (a b : JSValue) : JSValue := if truthy a then a else b.

(** [v === s] for a string literal [s] *)
Definition strict_eq_string (v : JSValue) (s : string) : bool :=
  match v with
  | VString s' => String.eqb s' s
  | _ => false
  end.

(** [typeof args['path'] === 'undefined' ? '' : args['path'] as string], as
    the delete, new-untitled and open commands all read their path. *)
Definition path_arg (args : gmap string JSValue) : JSValue :=
  if typeof_undefined (arg args "path") then VString "" else arg args "path".

(** [Partial<Contents.ICreateOptions>], as [newUntitled] fills it. *)
Record CreateOptions : Type := mkOptions {
  options_type : JSValue;
  options_path : JSValue;
  options_ext : option JSValue     (* [None]: the property is not set *)
}.

(** The calls the commands make on their collaborators. *)
Inductive DocCall : Type :=
  | ContentsGet (path : JSValue)                  (* [contents.get(path, { content: false })] *)
  | OpenOrReveal (path factory kernel : JSValue)  (* [docManager.openOrReveal] *)
  | ContentsNewUntitled (options : CreateOptions) (* [contents.newUntitled(options)] *)
  | ShowErrorMessage (title : JSValue) (error : string)
  | ShowDialog (title body : string)
  | ContextSave (c : Context)
  | ContextSaveAs (c : Context)
  | ContextRevert (c : Context)
  | ContextRestoreCheckpoint (c : Context)
  | ContextCreateCheckpoint (c : Context)
  | RenameDialog (path : string).                 (* [renameDialog(docManager, path)] *)

(** A promise, once settled: the calls made on the way, oldest first, and
    the outcome ([Normal] fulfilled, [Throw] rejected with a reason). *)
Definition Promise : Type := list DocCall * Completion unit.

Section Commands.
(** How each call on a collaborator settles, and what a context's model and
    path read. *)
Context (settle : DocCall → Completion unit).
Context (readOnly : Context → bool) (context_path : Context → string).

Definition call (c : DocCall) : Promise := ([c], settle c).

(** [p.then(() => k())] *)
Definition then_ (p : Promise) (k : unit → Promise) : Promise :=
  match p with
  | (made, Normal _) => let (more, outcome) := k () in (made ++ more, outcome)
  | (made, Throw reason) => (made, Throw reason)
  end.

(** [p.catch(error => k(error))] *)
Definition catch_ (p : Promise) (k : string → Promise) : Promise :=
  match p with
  | (made, Throw reason) => let (more, outcome) := k reason in (made ++ more, outcome)
  | (made, Normal v) => (made, Normal v)
  end.

(** [docmanager:new-untitled] (lines 159-177): the options it builds and its
    [execute]. *)
Definition newUntitled_options (args : gmap string JSValue) : CreateOptions :=
  mkOptions (arg args "type") (path_arg args)
    (if strict_eq_string (arg args "type") "file"
     then Some (js_or (arg args "ext") (VString ".txt"))
     else None).

Definition newUntitled_execute (args : gmap string JSValue) : Promise :=
  let errorTitle := js_or (arg args "error") (VString "Error") in
  catch_ (call (ContentsNewUntitled (newUntitled_options args)))
         (fun error => call (ShowErrorMessage errorTitle error)).

(** [docmanager:open] (lines 179-191). *)
Definition open_execute (args : gmap string JSValue) : Promise :=
  let path := path_arg args in
  let factory := js_or (arg args "factory") VUndefined in
  let kernel := js_or (arg args "kernel") VUndefined in
  then_ (call (ContentsGet path)) (fun _ => call (OpenOrReveal path factory kernel)).

Definition open_icon (args : gmap string JSValue) : JSValue :=
  js_or (arg args "icon") (VString "").

Definition open_label (args : gmap string JSValue) : JSValue :=
  js_or (arg args "label") (arg args "factory").

Definition open_mnemonic (args : gmap string JSValue) : JSValue :=
  js_or (arg args "mnemonic") (VNumber (-1)%float).

(** [isEnabled] (lines 127-130); [current] is [app.shell.currentWidget]. *)
Definition isEnabled (current : option Widget) : bool :=
  match current with
  | Some w => match contextForWidget w with Some _ => true | None => false end
  | None => false
  end.

(** [docManager.contextForWidget(app.shell.currentWidget)], as the commands
    read it once [isEnabled()] held. *)
Definition current_context (current : option Widget) : option Context :=
  match current with
  | Some w => contextForWidget w
  | None => None
  end.

(** [docmanager:restore-checkpoint], [docmanager:save] and
    [docmanager:save-as] (lines 193-237); [None] is the [undefined] they
    return when not enabled. *)
Definition restoreCheckpoint_execute (current : option Widget) : option Promise :=
  if isEnabled current then
    match current_context current with
    | Some c =>
        if readOnly c then Some (call (ContextRevert c))
        else Some (then_ (call (ContextRestoreCheckpoint c))
                         (fun _ => call (ContextRevert c)))
    | None => None
    end
  else None.

Definition save_execute (current : option Widget) : option Promise :=
  if isEnabled current then
    match current_context current with
    | Some c =>
        if readOnly c then Some (call (ShowDialog "Cannot Save" "Document is read-only"))
        else Some (then_ (call (ContextSave c))
                         (fun _ => call (ContextCreateCheckpoint c)))
    | None => None
    end
  else None.

Definition saveAs_execute (current : option Widget) : option Promise :=
  if isEnabled current then
    match current_context current with
    | Some c => Some (then_ (call (ContextSaveAs c))
                            (fun _ => call (ContextCreateCheckpoint c)))
    | None => None
    end
  else None.

(** [docmanager:rename] (lines 239-261); [isVisible] of [docmanager:clone]
    (lines 264-272) is the same function. *)
Definition rename_isVisible (absent : Absent) (current : option Widget) : JSValue :=
  match current with
  | None => VUndefined
  | Some w =>
      match contextForWidget w with
      | Some _ => VBool true
      | None =>
          (* [context !== null] *)
          match absent with
          | AbsentNull => VBool false
          | AbsentUndefined => VBool true
          end
      end
  end.

Definition rename_execute (current : option Widget) : option Promise :=
  match current with
  | None => None
  | Some w =>
      match contextForWidget w with
      | Some c => Some (call (RenameDialog (context_path c)))
      | None => None
      end
  end.

(** [execute] of [docmanager:clone] (lines 273-283); [cloneWidget] is
    [docManager.cloneWidget], [None] for a widget it cannot clone. *)
Definition clone_execute (cloneWidget : Widget → option Widget)
    (current : option Widget) (s : Session)
  : option Widget * Session * Completion unit :=
  match current with
  | None => (None, s, Normal ())
  | Some w =>
      match cloneWidget w with
      | Some child =>
          let '(child', s', outcome) := opener_open_widget child s in
          (Some child', s', outcome)
      | None => (None, s, Normal ())
      end
  end.
End Commands.

(** ** The context's side of disposal *)

(** Modelled from the spec: the [DocumentContext] ([DocumentRegistry.Context])
    and its model, which are not in this package.  Its disposal is terminal:
    the disposal notification fires exactly once, and once disposed the
    context sends no state-change notification to what was subscribed.
    [dispose()] does nothing on a disposed context; otherwise it disposes
    the model, which drops the connections of [model.stateChanged], emits
    [disposed], and drops the connections of [disposed].  The readiness
    promise is not cancelled: its callback can still run afterwards. *)
Record Document : Type := mkDocument {
  isDisposed : bool;               (* [context.isDisposed] *)
  handlers : Tracker * Host        (* what [handleContext] registered, and the application *)
}.

Definition tracked_document : Document := mkDocument false tracked.

(** [context.dispose()] *)
Definition context_dispose (d : Document) : Document :=
  if isDisposed d then d
  else
    let (tr, h) := handlers d in
    let st := deliver Disposed
                (mkTracker (disposable tr) (ready_pending tr) false (disposed_connected tr), h) in
    mkDocument true
      (mkTracker (disposable (fst st)) (ready_pending (fst st))
                 (stateChanged_connected (fst st)) false,
       snd st).

(** What the context does with an event: [Disposed] is a call of
    [dispose()], the others go to whatever is connected. *)
Definition emit (d : Document) (e : Event) : Document :=
  match e with
  | Disposed => context_dispose d
  | _ => mkDocument (isDisposed d) (deliver e (handlers d))
  end.

Definition play (d : Document) (evs : list Event) : Document := foldl emit d evs.

(** * Properties *)

(** ** The record of calls *)

Lemma acquired_snoc cs c t :
  t ∈ acquired (cs ++ [c]) ↔ t ∈ acquired cs ∨ c = SetDirty t.
Proof.
  unfold acquired. rewrite omap_app, elem_of_app. simpl.
  destruct c as [t'|t']; simpl; rewrite ?list_elem_of_singleton, ?elem_of_nil;
    intuition congruence.
Qed.

Lemma released_snoc cs c t :
  t ∈ released (cs ++ [c]) ↔ t ∈ released cs ∨ c = Dispose t.
Proof.
  unfold released. rewrite omap_app, elem_of_app. simpl.
  destruct c as [t'|t']; simpl; rewrite ?list_elem_of_singleton, ?elem_of_nil;
    intuition congruence.
Qed.

Lemma held_tokens_spec cs t :
  t ∈ held_tokens cs ↔ t ∈ acquired cs ∧ t ∉ released cs.
Proof. unfold held_tokens. rewrite list_elem_of_filter. tauto. Qed.

Lemma holds_true h : holds h = true ↔ ∃ t, t ∈ held_tokens (calls h).
Proof.
  unfold holds. rewrite bool_decide_eq_true.
  destruct (held_tokens (calls h)) as [|t l] eqn:E.
  - split; [congruence | intros [t Ht]; by apply elem_of_nil in Ht].
  - split; [intros _; exists t; left | congruence].
Qed.

Lemma holds_false h : holds h = false ↔ ∀ t, t ∉ held_tokens (calls h).
Proof.
  rewrite <- not_true_iff_false, holds_true. firstorder.
Qed.

Lemma pairing_snoc cs c : pairing (cs ++ [c]) = pair_step (pairing cs) c.
Proof. unfold pairing. by rewrite foldl_snoc. Qed.

Lemma pair_step_None_l cs : foldl pair_step None cs = None.
Proof. induction cs as [|c cs IH]; [done | exact IH]. Qed.

(** A well-paired record stays well paired when cut short. *)
Lemma pairing_prefix cs1 cs2 :
  is_Some (pairing (cs1 ++ cs2)) → is_Some (pairing cs1).
Proof.
  unfold pairing. rewrite foldl_app.
  destruct (foldl pair_step (Some None) cs1) as [o|]; [eauto |].
  rewrite pair_step_None_l. by intros [? ?].
Qed.

(** In a well-paired record every disposed token was acquired just before,
    so the acquired tokens are the disposed ones followed by the open one. *)
Lemma pairing_acquired cs o :
  pairing cs = Some o → acquired cs = released cs ++ option_list o.
Proof.
  revert o. induction cs as [|c cs IH] using rev_ind; intros o.
  - intros [= <-]. reflexivity.
  - rewrite pairing_snoc. unfold acquired, released in *. rewrite !omap_app.
    destruct (pairing cs) as [[t'|]|] eqn:E, c as [t|t]; simpl; try discriminate.
    + case_decide; [|discriminate]. intros [= <-]. subst t.
      rewrite (IH (Some t')) by done. simpl. by rewrite app_nil_r.
    + intros [= <-]. rewrite (IH None) by done. simpl.
      by rewrite !app_nil_r.
Qed.

Lemma acquired_setDirty cs t : acquired (cs ++ [SetDirty t]) = acquired cs ++ [t].
Proof. unfold acquired. by rewrite omap_app. Qed.

Lemma acquired_dispose cs t : acquired (cs ++ [Dispose t]) = acquired cs.
Proof. unfold acquired. rewrite omap_app. simpl. by rewrite app_nil_r. Qed.

Lemma released_setDirty cs t : released (cs ++ [SetDirty t]) = released cs.
Proof. unfold released. rewrite omap_app. simpl. by rewrite app_nil_r. Qed.

Lemma released_dispose cs t : released (cs ++ [Dispose t]) = released cs ++ [t].
Proof. unfold released. by rewrite omap_app. Qed.

(** ** Steps of the tracker keep the invariants *)

Lemma run_snoc st evs e : run st (evs ++ [e]) = deliver e (run st evs).
Proof. unfold run. by rewrite foldl_snoc. Qed.

Lemma run_app st evs1 evs2 : run st (evs1 ++ evs2) = run (run st evs1) evs2.
Proof. unfold run. by rewrite foldl_app. Qed.

Lemma sound_tracked : sound tracked.
Proof.
  split; simpl; try done; intros t Ht; unfold held_tokens in Ht; simpl in Ht;
    by apply elem_of_nil in Ht.
Qed.

(** Acquiring a token while none holds the indicator. *)
Lemma sound_acquire tr h :
  sound (tr, h) → (∀ t, t ∉ held_tokens (calls h)) →
  sound (mkTracker (Some (next_token h)) false true (disposed_connected tr), snd (setDirty h)).
Proof.
  intros [F R D H P C DC] Hnone. simpl in *.
  assert (Hn : next_token h ∉ released (calls h)).
  { intros Hin. apply R in Hin. rewrite F in Hin. apply elem_of_seq in Hin. lia. }
  split; simpl.
  - rewrite acquired_setDirty, F. exact (eq_sym (seq_S (next_token h) 0)).
  - intros t. rewrite released_setDirty, acquired_setDirty, elem_of_app. auto.
  - intros t [= <-]. rewrite acquired_setDirty, elem_of_app, list_elem_of_singleton. auto.
  - intros t. rewrite held_tokens_spec, released_setDirty, acquired_setDirty,
      elem_of_app, list_elem_of_singleton.
    intros [[Ht | ->] Hr]; [|done].
    destruct (Hnone t). by apply held_tokens_spec.
  - done.
  - done.
  - done.
Qed.

(** Disposing the token in [disposable], whether the variable is cleared
    ([onStateChanged]) or kept (the disposal handler). *)
Lemma sound_release tr h t d' :
  sound (tr, h) → disposable tr = Some t → d' = None ∨ d' = Some t →
  sound (mkTracker d' (ready_pending tr) (stateChanged_connected tr) (disposed_connected tr),
         dispose t h).
Proof.
  intros [F R D H P C DC] Ht Hd'. simpl in *.
  split; simpl.
  - by rewrite acquired_dispose.
  - intros t'. rewrite released_dispose, acquired_dispose, elem_of_app,
      list_elem_of_singleton.
    intros [Hin | ->]; auto.
  - intros t' ->. rewrite acquired_dispose. destruct Hd' as [|[= ->]]; [done | auto].
  - intros t'. rewrite held_tokens_spec, released_dispose, acquired_dispose,
      not_elem_of_app, list_elem_of_singleton.
    intros (Ha & Hr & Hne). destruct Hne.
    assert (E : disposable tr = Some t') by (apply H, held_tokens_spec; auto).
    congruence.
  - intros Hp. apply P in Hp as [Hp _]. congruence.
  - done.
  - done.
Qed.

Lemma sound_no_token tr h :
  sound (tr, h) → disposable tr = None → ∀ t, t ∉ held_tokens (calls h).
Proof. intros S Hd t Hin. apply (sound_held _ S) in Hin. simpl in Hin. congruence. Qed.

Lemma deliver_sound e st : sound st → sound (deliver e st).
Proof.
  destruct st as [[d p c dc] h]. intros S.
  destruct e as [md | a | ]; unfold deliver; simpl.
  - destruct p; [|done]. unfold onReady.
    destruct (sound_pending _ S eq_refl) as [Hd Hcs]. simpl in Hd, Hcs. subst d.
    destruct md.
    + apply (sound_acquire _ _ S), (sound_no_token _ _ S eq_refl).
    + destruct S as [F R D H P C DC]. split; simpl in *; done.
  - destruct c; [|done]. unfold onStateChanged.
    pose proof (sound_connected _ S) as C. simpl in C. destruct p; [discriminate|].
    pose proof (sound_disposed _ S) as DC. simpl in DC. subst dc.
    destruct (String.eqb (name a) "dirty"); [|done].
    destruct (strict_true (newValue a)), d as [t|]; try done.
    + apply (sound_acquire _ _ S), (sound_no_token _ _ S eq_refl).
    + apply (sound_release _ _ t None S); auto.
  - destruct dc; [|done]. unfold onDisposed. simpl.
    destruct d as [t|]; [|done].
    apply (sound_release _ _ t (Some t) S); auto.
Qed.

Lemma run_sound evs : sound (run tracked evs).
Proof.
  induction evs as [|e evs IH] using rev_ind; [apply sound_tracked|].
  rewrite run_snoc. by apply deliver_sound.
Qed.

(** ** Runs without a disposal *)

Lemma was_disposed_snoc evs e :
  was_disposed (evs ++ [e]) = was_disposed evs || is_disposed e.
Proof. unfold was_disposed. rewrite existsb_app. simpl. by rewrite orb_false_r. Qed.

Lemma resolves_app evs1 evs2 : resolves (evs1 ++ evs2) = resolves evs1 || resolves evs2.
Proof. apply existsb_app. Qed.

Lemma live_tracked : live tracked.
Proof. split; [apply sound_tracked | done | done]. Qed.

Lemma deliver_live e st : is_disposed e = false → live st → live (deliver e st).
Proof.
  intros He L. pose proof (deliver_sound e st (live_sound _ L)) as S'.
  destruct L as [S T Pr]. destruct st as [[d p c dc] h]. simpl in *.
  assert (Hn : next_token h ∉ released (calls h)).
  { intros Hin. apply (sound_released _ S) in Hin.
    rewrite (sound_fresh _ S) in Hin. apply elem_of_seq in Hin. simpl in Hin. lia. }
  destruct e as [md | a | ]; [| |discriminate]; unfold deliver in *; simpl in *.
  - destruct p; [|by split]. unfold onReady in *.
    destruct (sound_pending _ S eq_refl) as [Hd Hcs]. simpl in Hd, Hcs. subst d.
    destruct md; simpl in *.
    + split; [done | |]; simpl.
      * intros t [= <-]. by rewrite released_setDirty.
      * by rewrite pairing_snoc, Pr.
    + by split.
  - destruct c; [|by split]. unfold onStateChanged in *.
    destruct (String.eqb (name a) "dirty"); [|by split].
    destruct (strict_true (newValue a)), d as [t|]; simpl in *; try by split.
    + split; [done | |]; simpl.
      * intros t [= <-]. by rewrite released_setDirty.
      * by rewrite pairing_snoc, Pr.
    + split; [done | done |]; simpl.
      rewrite pairing_snoc, Pr. simpl. by rewrite decide_True.
Qed.

Lemma run_live evs : was_disposed evs = false → live (run tracked evs).
Proof.
  induction evs as [|e evs IH] using rev_ind; [intros _; apply live_tracked|].
  rewrite was_disposed_snoc, orb_false_iff, run_snoc. intros [Hevs He].
  apply deliver_live; auto.
Qed.

(** Without a disposal the tracker and the observer agree. *)
Lemma run_agrees evs :
  was_disposed evs = false → agrees (run tracked evs) (foldl observe (false, None) evs).
Proof.
  induction evs as [|e evs IH] using rev_ind.
  - intros _. split; [done|]. simpl. split; [by intros [? ?] | done].
  - rewrite was_disposed_snoc, orb_false_iff, run_snoc, foldl_snoc.
    intros [Hevs He]. specialize (IH Hevs).
    pose proof (run_sound evs) as S.
    destruct (run tracked evs) as [[d p c dc] h].
    destruct (foldl observe (false, None) evs) as [rdy last].
    destruct IH as [Hc Hl]. simpl in Hc, Hl. subst rdy.
    pose proof (sound_connected _ S) as C. simpl in C.
    destruct e as [md | a | ]; [| |discriminate]; unfold deliver, agrees; simpl.
    + destruct p, c; try discriminate; simpl; [|done].
      destruct (sound_pending _ S eq_refl) as [Hd _]. simpl in Hd. subst d.
      unfold onReady. destruct md; simpl.
      * split; [done|]. split; eauto.
      * split; [done|]. split; [by intros [? ?] | done].
    + destruct c; simpl; [|done]. unfold onStateChanged.
      destruct (String.eqb (name a) "dirty"); [|done].
      destruct (strict_true (newValue a)), d as [t|]; simpl;
        (split; [done|]); split; eauto; try done; by intros [? ?].
Qed.

(** While readiness has not resolved nothing reaches the tracker's state:
    [onStateChanged] is not connected and the disposal handler finds no
    token. *)
Lemma run_inert evs : resolves evs = false → run tracked evs = tracked.
Proof.
  induction evs as [|e evs IH]; [done|].
  unfold resolves. simpl. rewrite orb_false_iff. intros [He Hevs].
  destruct e; [discriminate | |]; exact (IH Hevs).
Qed.

(** The indicator is a matter of [disposable] as long as nothing was
    disposed of. *)
Lemma live_holds st : live st → holds (snd st) = true ↔ is_Some (disposable (fst st)).
Proof.
  intros [S T _]. rewrite holds_true. split.
  - intros [t Ht]. apply (sound_held _ S) in Ht. eauto.
  - intros [t Ht]. exists t. apply held_tokens_spec.
    split; [by apply (sound_disposable _ S) | by apply T].
Qed.

(** Right after the disposal handler ran, no token holds the indicator. *)
Lemma disposed_releases st : sound st → holds (snd (deliver Disposed st)) = false.
Proof.
  intros S. pose proof (deliver_sound Disposed st S) as S'.
  apply holds_false. intros t Ht.
  pose proof (sound_held _ S' t Ht) as Hd.
  apply held_tokens_spec in Ht as [_ Hr]. apply Hr. clear Hr.
  destruct st as [[d p c dc] h]. pose proof (sound_disposed _ S) as DC.
  simpl in DC. subst dc. unfold deliver, onDisposed in *. simpl in *.
  destruct d as [t'|]; simpl in *; [|discriminate].
  injection Hd as ->. rewrite released_dispose, elem_of_app, list_elem_of_singleton. auto.
Qed.

(** ** The disposal contract *)

Lemma disposal_terminal_free evs : was_disposed evs = false → disposal_terminal evs = true.
Proof.
  induction evs as [|e evs IH]; [done|].
  unfold was_disposed. simpl. rewrite orb_false_iff. intros [He Hevs].
  destruct e; [exact (IH Hevs) | exact (IH Hevs) | discriminate].
Qed.

(** A history that respects the contract has no disposal, or ends with the
    only one. *)
Lemma disposal_terminal_inv evs :
  disposal_terminal evs = true →
  was_disposed evs = false ∨ ∃ evs', evs = evs' ++ [Disposed] ∧ was_disposed evs' = false.
Proof.
  induction evs as [|e evs IH]; [by left|].
  assert (Hcons : ∀ e', is_disposed e' = false → disposal_terminal evs = true →
    was_disposed (e' :: evs) = false ∨
    ∃ evs', e' :: evs = evs' ++ [Disposed] ∧ was_disposed evs' = false).
  { intros e' He' Ht. destruct (IH Ht) as [Hf | (evs' & -> & Hf)].
    - left. unfold was_disposed in *. simpl. by rewrite He', Hf.
    - right. exists (e' :: evs'). split; [done|].
      unfold was_disposed in *. simpl. by rewrite He', Hf. }
  destruct e as [md | a | ].
  - exact (Hcons (Ready md) eq_refl).
  - exact (Hcons (StateChanged a) eq_refl).
  - simpl. destruct evs; [|discriminate]. intros _. right. by exists [].
Qed.

Lemma disposal_terminal_take evs n :
  disposal_terminal evs = true → disposal_terminal (take n evs) = true.
Proof.
  revert n. induction evs as [|e evs IH]; intros n; [by destruct n|].
  destruct n as [|n]; [done|]. simpl.
  destruct e as [md | a | ]; try apply IH.
  destruct evs; [|discriminate]. by destruct n.
Qed.

(** Under the contract the record is well paired; after the disposal no
    token is open. *)
Lemma terminal_pairing evs :
  disposal_terminal evs = true → is_Some (pairing (calls (snd (run tracked evs)))).
Proof.
  intros [Hf | (evs' & -> & Hf)]%disposal_terminal_inv.
  - rewrite (live_pairing _ (run_live evs Hf)). eauto.
  - rewrite run_snoc. pose proof (run_live evs' Hf) as [S _ Pr].
    destruct (run tracked evs') as [[d p c dc] h].
    pose proof (sound_disposed _ S) as DC. simpl in DC, Pr. subst dc.
    unfold deliver, onDisposed. simpl. destruct d as [t|]; simpl.
    + rewrite pairing_snoc, Pr. simpl. rewrite decide_True by done. eauto.
    + rewrite Pr. eauto.
Qed.

(** ** The tracked set *)

Lemma notify_trackers_contexts c e ts h : (notify_trackers c e ts h).1.*1 = ts.*1.
Proof.
  revert h. induction ts as [|[c' tr] ts IH]; intros h; [done|]. simpl.
  case_decide.
  - destruct (deliver e (tr, h)) as [tr' h'].
    specialize (IH h'). destruct (notify_trackers c e ts h'). simpl in *. by f_equal.
  - specialize (IH h). destruct (notify_trackers c e ts h). simpl in *. by f_equal.
Qed.

(** No event of a context touches the [contexts] set: the source has no
    call that removes from it. *)
Lemma notify_contexts c e w : contexts (notify c e w) = contexts w.
Proof. unfold notify. by destruct (notify_trackers c e (trackers w) (host w)). Qed.

Lemma notify_trackers_fst c e w : (trackers (notify c e w)).*1 = (trackers w).*1.
Proof.
  unfold notify. pose proof (notify_trackers_contexts c e (trackers w) (host w)) as H.
  by destruct (notify_trackers c e (trackers w) (host w)).
Qed.

Lemma act_tracked_once w a : tracked_once w → tracked_once (act w a).
Proof.
  intros [Hnd Hiff]. destruct a as [[c|] | c e]; simpl; [| done |].
  - case_decide as Hin; [done|]. split; simpl.
    + rewrite fmap_app. apply NoDup_app. split; [done|]. split.
      * intros x Hx ->%list_elem_of_singleton. by apply Hin, Hiff.
      * apply NoDup_singleton.
    + intros x. rewrite fmap_app, elem_of_app, elem_of_union, elem_of_singleton, Hiff.
      simpl. rewrite list_elem_of_singleton. tauto.
  - unfold tracked_once. by rewrite notify_contexts, notify_trackers_fst.
Qed.

Lemma act_contexts w a : contexts w ⊆ contexts (act w a).
Proof.
  destruct a as [[c|] | c e]; simpl; [| done |].
  - case_decide; [done|]. simpl. set_solver.
  - by rewrite notify_contexts.
Qed.

Lemma world_run_snoc w acts a : world_run w (acts ++ [a]) = act (world_run w acts) a.
Proof. unfold world_run. by rewrite foldl_snoc. Qed.

Lemma world_run_tracked_once acts : tracked_once (world_run new_world acts).
Proof.
  induction acts as [|a acts IH] using rev_ind.
  - split; simpl; [constructor | set_solver].
  - rewrite world_run_snoc. by apply act_tracked_once.
Qed.

Lemma world_run_contexts w acts : contexts w ⊆ contexts (world_run w acts).
Proof.
  induction acts as [|a acts IH] using rev_ind; [done|].
  rewrite world_run_snoc. etrans; [exact IH | apply act_contexts].
Qed.

(** ** Disposal by the context *)

(** A host that holds a token has been reached through readiness. *)
Lemma holds_connected evs :
  holds (snd (run tracked evs)) = true →
  stateChanged_connected (fst (run tracked evs)) = true.
Proof.
  intros [t Ht]%holds_true. pose proof (run_sound evs) as S.
  rewrite (sound_connected _ S).
  destruct (ready_pending (fst (run tracked evs))) eqn:E; [|done].
  destruct (sound_pending _ S E) as [_ Hc]. rewrite Hc in Ht.
  by apply elem_of_nil in Ht.
Qed.

(** [onStateChanged] is connected exactly from the first readiness
    resolution on, as far as the handlers go. *)
Lemma connected_resolved evs :
  stateChanged_connected (fst (run tracked evs)) = resolves evs.
Proof.
  induction evs as [|e evs IH] using rev_ind; [done|].
  rewrite run_snoc, resolves_app. simpl. rewrite orb_false_r, <- IH. clear IH.
  pose proof (sound_connected _ (run_sound evs)) as C.
  destruct (run tracked evs) as [[d p c dc] h]. simpl in *. subst c.
  destruct e as [md | a | ]; unfold deliver; simpl.
  - destruct p; simpl; [|done]. unfold onReady. by destruct md.
  - rewrite orb_false_r. destruct p; simpl; [done|]. unfold onStateChanged.
    destruct (String.eqb (name a) "dirty"); [|done].
    by destruct (strict_true (newValue a)), d.
  - rewrite orb_false_r. destruct dc; [|done]. unfold onDisposed. simpl. by destruct d.
Qed.

(** Until the context is disposed, playing events is delivering them. *)
Lemma play_undisposed b st evs :
  was_disposed evs = false → play (mkDocument b st) evs = mkDocument b (run st evs).
Proof.
  revert st. induction evs as [|e evs IH]; intros st; [done|].
  unfold was_disposed. simpl. rewrite orb_false_iff. intros [He Hevs].
  destruct e as [md | a | ]; [| |discriminate]; exact (IH _ Hevs).
Qed.

(** What [dispose()] leaves of an undisposed context: the disposal handler
    has run, and nothing is connected any more. *)
Lemma context_dispose_undisposed st :
  sound st →
  context_dispose (mkDocument false st)
  = mkDocument true (mkTracker (disposable (fst st)) (ready_pending (fst st)) false false,
                     snd (deliver Disposed st)).
Proof.
  intros S. pose proof (sound_disposed _ S) as DC.
  destruct st as [[d p c dc] h]. simpl in DC. subst dc.
  unfold context_dispose, deliver, onDisposed. simpl. by destruct d.
Qed.

(** A disposed context with nothing connected stays as it is, unless its
    readiness is still to come. *)
Lemma disposed_document_final d later :
  isDisposed d = true →
  stateChanged_connected (fst (handlers d)) = false →
  ready_pending (fst (handlers d)) = false ∨ resolves later = false →
  play d later = d.
Proof.
  destruct d as [b [[dsp p c dc] h]]. simpl. intros -> -> Hready.
  induction later as [|e later IH]; [done|].
  assert (Hstep : emit (mkDocument true (mkTracker dsp p false dc, h)) e
                  = mkDocument true (mkTracker dsp p false dc, h)).
  { destruct e as [md | a | ]; unfold emit, deliver; simpl; [|done|done].
    destruct Hready as [-> | Hr]; [done | discriminate Hr]. }
  change (play (emit (mkDocument true (mkTracker dsp p false dc, h)) e) later
          = mkDocument true (mkTracker dsp p false dc, h)).
  rewrite Hstep. apply IH.
  destruct Hready as [Hp | Hr]; [by left | right].
  unfold resolves in *. simpl in Hr. by apply orb_false_iff in Hr as [_ ?].
Qed.

Lemma disposal_terminal_last evs :
  was_disposed evs = false → disposal_terminal (evs ++ [Disposed]) = true.
Proof.
  induction evs as [|e evs IH]; [done|].
  unfold was_disposed. simpl. rewrite orb_false_iff. intros [He Hevs].
  destruct e as [md | a | ]; [exact (IH Hevs) | exact (IH Hevs) | discriminate].
Qed.

(** Under the disposal contract no token is disposed twice. *)
Lemma terminal_released_NoDup evs :
  disposal_terminal evs = true → NoDup (released (calls (snd (run tracked evs)))).
Proof.
  intros [o Ho]%terminal_pairing. apply pairing_acquired in Ho.
  pose proof (NoDup_seq 0 (next_token (snd (run tracked evs)))) as Hnd.
  rewrite <- (sound_fresh _ (run_sound evs)), Ho in Hnd.
  by apply NoDup_app in Hnd as [? _].
Qed.

(** * The claims *)

(** The example scenario of the specification: ready and clean, dirty,
    dirty again, clean, disposed. *)
Example scenario :
  map (fun evs => calls (snd (run tracked evs)))
      [ [Ready false];
        [Ready false; dirty_changed true];
        [Ready false; dirty_changed true; dirty_changed true];
        [Ready false; dirty_changed true; dirty_changed true; dirty_changed false];
        [Ready false; dirty_changed true; dirty_changed true; dirty_changed false; Disposed] ]
  = [ []; [SetDirty 0]; [SetDirty 0]; [SetDirty 0; Dispose 0]; [SetDirty 0; Dispose 0] ].
Proof. reflexivity. Qed.


(** C1, as stated, fails: when a context is disposed before it is ready and
    its readiness resolves afterwards with a dirty model, the readiness
    callback (which the disposal does not cancel) acquires a token, so the
    indicator is held for a disposed context. *)
Lemma hold_after_late_readiness :
  ¬ no_hold_without_dirt [Disposed; Ready true].
Proof.
  unfold no_hold_without_dirt. intros [Hheld _].
  destruct (Hheld eq_refl) as [_ Hdisposed]. discriminate Hdisposed.
Qed.

(** C1 (amended): at any point of a sequence of ready/stateChanged/disposed
    events in which nothing is delivered after the disposal, the dirty
    indicator is held on behalf of the context iff the context's last
    observed dirty value is [true] and the context has not been disposed. *)
Theorem no_hold_without_dirt_until_disposal (evs : list Event) :
  disposal_terminal evs = true → ∀ n, no_hold_without_dirt (take n evs).
Proof.
  intros Ht n. apply (disposal_terminal_take evs n) in Ht.
  revert Ht. generalize (take n evs). clear evs n. intros evs.
  unfold no_hold_without_dirt, last_observed.
  intros [Hf | (evs' & -> & Hf)]%disposal_terminal_inv.
  - rewrite (live_holds _ (run_live evs Hf)).
    destruct (run_agrees evs Hf) as [_ ->]. tauto.
  - rewrite run_snoc, (disposed_releases _ (run_sound evs')), was_disposed_snoc.
    simpl. rewrite orb_true_r. split; [discriminate | by intros [_ ?]].
Qed.

Lemma no_hold_without_dirt_until_disposal_witness :
  disposal_terminal [Ready true; dirty_changed false; dirty_changed true; Disposed] = true ∧
  no_hold_without_dirt [Ready true; dirty_changed false; dirty_changed true] ∧
  no_hold_without_dirt [Ready true; dirty_changed false; dirty_changed true; Disposed].
Proof.
  split; [reflexivity|]. split.
  - apply (no_hold_without_dirt_until_disposal
             [Ready true; dirty_changed false; dirty_changed true; Disposed] eq_refl 3).
  - apply (no_hold_without_dirt_until_disposal
             [Ready true; dirty_changed false; dirty_changed true; Disposed] eq_refl 4).
Defined.

(** C2: when [context.model.dirty] is [true] at the moment readiness
    resolves, the readiness callback connects [onStateChanged] and acquires a
    token in the same step, whatever was emitted before (no notification
    reached [onStateChanged], which was not connected): the only call on the
    host is that one [setDirty], and the indicator is held. *)
Theorem race_reconciliation (evs : list Event) :
  resolves evs = false →
  let st := run tracked (evs ++ [Ready true]) in
  calls (snd (run tracked evs)) = [] ∧
  stateChanged_connected (fst st) = true ∧
  disposable (fst st) = Some 0 ∧
  calls (snd st) = [SetDirty 0] ∧
  holds (snd st) = true.
Proof.
  intros Hevs. rewrite run_snoc, (run_inert evs Hevs). by vm_compute.
Qed.

Lemma race_reconciliation_witness :
  resolves [dirty_changed true] = false ∧
  calls (snd (run tracked ([dirty_changed true] ++ [Ready true]))) = [SetDirty 0].
Proof.
  split; [reflexivity|].
  apply (race_reconciliation [dirty_changed true]). reflexivity.
Defined.

(** C9: as long as the readiness signal does not resolve, whatever else is
    delivered, [onStateChanged] is never connected and no token is acquired:
    the state stays the one [handleContext] left, with the readiness
    callback still waiting (no retry, no timeout) and no call made on the
    host.  Delivery is a total function on states: there is no error
    outcome. *)
Theorem never_ready_inert (evs : list Event) :
  resolves evs = false →
  let st := run tracked evs in
  st = tracked ∧
  ready_pending (fst st) = true ∧
  stateChanged_connected (fst st) = false ∧
  acquired (calls (snd st)) = [] ∧
  calls (snd st) = [] ∧
  holds (snd st) = false.
Proof.
  intros Hevs. rewrite (run_inert evs Hevs). by vm_compute.
Qed.

Lemma never_ready_inert_witness :
  resolves [dirty_changed true; dirty_changed false; Disposed; dirty_changed true] = false ∧
  run tracked [dirty_changed true; dirty_changed false; Disposed; dirty_changed true] = tracked.
Proof.
  split; [reflexivity|].
  apply (never_ready_inert [dirty_changed true; dirty_changed false; Disposed; dirty_changed true]).
  reflexivity.
Defined.

(** C3, as stated, fails: disposal does not remove the context from
    tracking.  The disposal of a context that holds a token makes the one
    release call, but nothing in the source deletes from [contexts]: the
    context is still a member afterwards. *)
Lemma disposal_does_not_untrack :
  calls (host (world_run new_world
                 [Open (Some 0); Notify 0 (Ready true); Notify 0 Disposed]))
    = [SetDirty 0; Dispose 0] ∧
  0 ∈ contexts (world_run new_world
                  [Open (Some 0); Notify 0 (Ready true); Notify 0 Disposed]).
Proof. split; [reflexivity | by vm_compute]. Qed.

(** C3 (amended): for every context that currently holds a token, its
    disposal results in exactly one release call, the [dispose] of the token
    in [disposable], after which no token holds the indicator; the context
    is not removed from tracking, it stays in the [contexts] set; and any
    state-change notifications after the disposal are ignored: they cause no
    further acquire or release call and change nothing. *)
Theorem disposal_releases (evs : list Event) (later : list IChangedArgs) :
  was_disposed evs = false →
  holds (snd (run tracked evs)) = true →
  let after := context_dispose (mkDocument false (run tracked evs)) in
  (∃ t, disposable (fst (run tracked evs)) = Some t ∧
        calls (snd (handlers after)) = calls (snd (run tracked evs)) ++ [Dispose t]) ∧
  holds (snd (handlers after)) = false ∧
  play after (StateChanged <$> later) = after ∧
  (∀ w c, contexts (notify c Disposed w) = contexts w ∧
          (trackers (notify c Disposed w)).*1 = (trackers w).*1).
Proof.
  intros Hf Hheld. cbv zeta. pose proof (run_sound evs) as S.
  pose proof (holds_connected evs Hheld) as Hc.
  rewrite (context_dispose_undisposed _ S). simpl.
  split; [|split; [|split]].
  - apply holds_true in Hheld as [t Ht]. apply (sound_held _ S) in Ht.
    exists t. split; [done|]. pose proof (sound_disposed _ S) as DC.
    destruct (run tracked evs) as [[d p c dc] h]. simpl in *. subst d dc.
    by unfold deliver, onDisposed.
  - by apply disposed_releases.
  - apply disposed_document_final; [done | done |]. left. simpl.
    rewrite (sound_connected _ S) in Hc. by destruct (ready_pending _).
  - intros w c. by rewrite notify_contexts, notify_trackers_fst.
Qed.

Lemma disposal_releases_witness :
  was_disposed [Ready false; dirty_changed true] = false ∧
  holds (snd (run tracked [Ready false; dirty_changed true])) = true ∧
  calls (snd (handlers (context_dispose
           (mkDocument false (run tracked [Ready false; dirty_changed true])))))
    = [SetDirty 0; Dispose 0] ∧
  play (context_dispose (mkDocument false (run tracked [Ready false; dirty_changed true])))
       (StateChanged <$> [mkArgs "dirty" (VBool true) (VBool false);
                          mkArgs "dirty" (VBool false) (VBool true)])
    = context_dispose (mkDocument false (run tracked [Ready false; dirty_changed true])).
Proof.
  split; [reflexivity|]. split; [reflexivity|].
  destruct (disposal_releases [Ready false; dirty_changed true]
              [mkArgs "dirty" (VBool true) (VBool false);
               mkArgs "dirty" (VBool false) (VBool true)] eq_refl eq_refl)
    as ((t & Ht & Hcalls) & _ & Hlater & _).
  injection Ht as <-. split; [exact Hcalls | exact Hlater].
Defined.

(** C4, as stated, fails: when a context is disposed before it is ready and
    its readiness resolves afterwards with a dirty model, then after the
    disposal the context holds a token and [onStateChanged] is subscribed to
    its model: the readiness callback is not cancelled by the disposal. *)
Lemma late_readiness_subscribes_after_disposal :
  isDisposed (play tracked_document [Disposed; Ready true]) = true ∧
  holds (snd (handlers (play tracked_document [Disposed; Ready true]))) = true ∧
  stateChanged_connected (fst (handlers (play tracked_document [Disposed; Ready true])))
    = true.
Proof. split; [reflexivity|]. split; reflexivity. Qed.

(** C4 (amended): for every tracked context whose readiness does not resolve
    after its disposal, once it is disposed the context holds no token and
    no live subscription references it, at any later point.  The
    [stateChanged] subscription, live from readiness on, is cancelled once,
    on disposal; it is the disposed context that drops it, [handleContext]
    itself never disconnects. *)
Theorem disposal_leaves_no_token (evs later : list Event) :
  was_disposed evs = false →
  resolves later = false →
  let after := context_dispose (mkDocument false (run tracked evs)) in
  holds (snd (handlers (play after later))) = false ∧
  stateChanged_connected (fst (handlers (play after later))) = false ∧
  disposed_connected (fst (handlers (play after later))) = false ∧
  play after later = after ∧
  stateChanged_connected (fst (run tracked evs)) = resolves evs.
Proof.
  intros Hf Hlater. cbv zeta. pose proof (run_sound evs) as S.
  rewrite (context_dispose_undisposed _ S).
  rewrite disposed_document_final; [|done|done|by right]. simpl.
  split; [by apply disposed_releases|].
  repeat (split; [done|]). apply connected_resolved.
Qed.

Lemma disposal_leaves_no_token_witness :
  was_disposed [Ready true] = false ∧
  resolves [dirty_changed false; Disposed; dirty_changed true] = false ∧
  holds (snd (handlers (play (context_dispose (mkDocument false (run tracked [Ready true])))
                             [dirty_changed false; Disposed; dirty_changed true]))) = false.
Proof.
  split; [reflexivity|]. split; [reflexivity|].
  apply (disposal_leaves_no_token [Ready true]
           [dirty_changed false; Disposed; dirty_changed true]); reflexivity.
Defined.

(** While a token is in [disposable], a notification that is not
    [dirty = false] changes nothing. *)
Lemma not_dirty_false_noop st a :
  is_Some (disposable (fst st)) → not_dirty_false a = true →
  deliver (StateChanged a) st = st.
Proof.
  destruct st as [[d p c dc] h]. intros [t Ht] Ha. simpl in Ht. subst d.
  unfold deliver, onStateChanged, not_dirty_false in *. simpl.
  destruct c; [|done].
  destruct (String.eqb (name a) "dirty"); [|done]. simpl in Ha. by rewrite Ha.
Qed.

Lemma not_dirty_false_run st mid :
  is_Some (disposable (fst st)) → forallb not_dirty_false mid = true →
  run st (map StateChanged mid) = st.
Proof.
  intros Hd. induction mid as [|a mid IH]; [done|].
  simpl forallb. rewrite andb_true_iff. intros [Ha Hmid].
  change (run (deliver (StateChanged a) st) (map StateChanged mid) = st).
  rewrite not_dirty_false_noop by done. by apply IH.
Qed.

(** C5: for a tracked context that is ready and not disposed, two
    [dirty = true] notifications with no [dirty = false] notification between
    them make one acquire call when no token is held and none when one is
    held, and never a release; the second notification (like any in between)
    changes nothing.  Afterwards exactly one acquire call of the record is
    not matched by a release. *)
Theorem idempotent_acquire (evs : list Event) (a1 a2 : IChangedArgs) (mid : list IChangedArgs) :
  was_disposed evs = false →
  stateChanged_connected (fst (run tracked evs)) = true →
  name a1 = "dirty" → newValue a1 = VBool true →
  name a2 = "dirty" → newValue a2 = VBool true →
  forallb not_dirty_false mid = true →
  let st := run tracked evs in
  let st1 := deliver (StateChanged a1) st in
  let st2 := run st1 (map StateChanged mid ++ [StateChanged a2]) in
  calls (snd st2)
    = calls (snd st) ++ match disposable (fst st) with
                        | None => [SetDirty (next_token (snd st))]
                        | Some _ => []
                        end ∧
  st2 = st1 ∧
  ∃ t, disposable (fst st2) = Some t ∧
       acquired (calls (snd st2)) = released (calls (snd st2)) ++ [t].
Proof.
  intros Hf Hc Hn1 Hv1 Hn2 Hv2 Hmid. cbv zeta.
  assert (L1 : live (deliver (StateChanged a1) (run tracked evs))).
  { apply deliver_live; [done | by apply run_live]. }
  assert (H1 : is_Some (disposable (fst (deliver (StateChanged a1) (run tracked evs)))) ∧
    calls (snd (deliver (StateChanged a1) (run tracked evs)))
      = calls (snd (run tracked evs)) ++
        match disposable (fst (run tracked evs)) with
        | None => [SetDirty (next_token (snd (run tracked evs)))]
        | Some _ => []
        end).
  { destruct (run tracked evs) as [[d p c dc] h]. simpl in Hc. subst c.
    unfold deliver, onStateChanged. simpl. rewrite Hn1, Hv1. simpl.
    destruct d; simpl; split; eauto. by rewrite app_nil_r. }
  destruct H1 as [Hd Hcalls].
  assert (E : run (deliver (StateChanged a1) (run tracked evs))
                (map StateChanged mid ++ [StateChanged a2])
              = deliver (StateChanged a1) (run tracked evs)).
  { rewrite run_app, not_dirty_false_run by done.
    change (deliver (StateChanged a2) (deliver (StateChanged a1) (run tracked evs))
            = deliver (StateChanged a1) (run tracked evs)).
    apply not_dirty_false_noop; [done|].
    unfold not_dirty_false. by rewrite Hn2, Hv2. }
  rewrite E. split; [done|]. split; [done|].
  destruct Hd as [t Ht]. exists t. split; [done|].
  rewrite (pairing_acquired _ (Some t)); [done|].
  by rewrite (live_pairing _ L1), Ht.
Qed.

Lemma idempotent_acquire_witness :
  was_disposed [Ready false] = false ∧
  calls (snd (run (deliver (dirty_changed true) (run tracked [Ready false]))
                  (map StateChanged [mkArgs "readOnly" VUndefined (VBool true)]
                   ++ [dirty_changed true])))
    = [SetDirty 0].
Proof.
  split; [reflexivity|].
  apply (idempotent_acquire [Ready false]
           (mkArgs "dirty" (VBool false) (VBool true))
           (mkArgs "dirty" (VBool false) (VBool true))
           [mkArgs "readOnly" VUndefined (VBool true)]);
    reflexivity.
Defined.

(** C6: for every sequence of notifications (with readiness resolving
    anywhere in it, and at most a final disposal), the acquire and release
    calls come in matched pairs: an acquire is made only when no token is
    open and a release disposes the token of the acquire just before it.  At
    no prefix of the sequence do the releases outnumber the acquires, at most
    one acquire is unmatched, and no token is disposed twice. *)
Theorem no_double_release (evs : list Event) :
  disposal_terminal evs = true →
  let cs := calls (snd (run tracked evs)) in
  is_Some (pairing cs) ∧
  (∀ n, length (released (calls (snd (run tracked (take n evs)))))
        ≤ length (acquired (calls (snd (run tracked (take n evs)))))) ∧
  length (acquired cs) ≤ S (length (released cs)) ∧
  NoDup (released cs).
Proof.
  intros Ht. cbv zeta.
  assert (Hlen : ∀ evs', disposal_terminal evs' = true →
    ∃ o, acquired (calls (snd (run tracked evs')))
         = released (calls (snd (run tracked evs'))) ++ option_list o).
  { intros evs' [o Ho]%terminal_pairing. exists o. by apply pairing_acquired. }
  split; [by apply terminal_pairing|]. split; [|split].
  - intros n. destruct (Hlen (take n evs)) as [o ->].
    + by apply disposal_terminal_take.
    + rewrite length_app. lia.
  - destruct (Hlen evs Ht) as [o ->]. rewrite length_app. destruct o; simpl; lia.
  - destruct (Hlen evs Ht) as [o Ho].
    pose proof (NoDup_seq 0 (next_token (snd (run tracked evs)))) as Hnd.
    rewrite <- (sound_fresh _ (run_sound evs)), Ho in Hnd.
    by apply NoDup_app in Hnd as [? _].
Qed.

Lemma no_double_release_witness :
  disposal_terminal [Ready false; dirty_changed true; dirty_changed false;
                     dirty_changed true; dirty_changed false] = true ∧
  NoDup (released (calls (snd (run tracked
    [Ready false; dirty_changed true; dirty_changed false;
     dirty_changed true; dirty_changed false])))).
Proof.
  split; [reflexivity|].
  apply (no_double_release [Ready false; dirty_changed true; dirty_changed false;
                            dirty_changed true; dirty_changed false]).
  reflexivity.
Defined.

(** C7, as stated, fails: a disposed context is not removed from the tracked
    set.  Nothing in the source deletes from [contexts]; after its disposal
    the context is still a member. *)
Lemma disposed_context_stays_tracked :
  0 ∈ contexts (world_run new_world [Open (Some 0); Notify 0 Disposed]).
Proof. by vm_compute. Qed.

(** C7 (amended): the tracked set contains each context at most once and
    [handleContext] runs once per context: opening a widget for a context
    that is already in the set changes nothing.  A context is never removed
    from the set, by its disposal or by anything else, so it is never added
    a second time and [handleContext] never runs for it again. *)
Theorem tracked_set_only_grows (acts : list Action) :
  let w := world_run new_world acts in
  NoDup (trackers w).*1 ∧
  (∀ c, c ∈ contexts w ↔ c ∈ (trackers w).*1) ∧
  (∀ c, c ∈ contexts w → opener_open (Some c) w = Normal w) ∧
  (∀ c e, contexts (notify c e w) = contexts w) ∧
  (∀ more, contexts w ⊆ contexts (world_run w more)).
Proof.
  cbv zeta. destruct (world_run_tracked_once acts) as [Hnd Hiff].
  split; [done|]. split; [done|]. split; [|split].
  - intros c Hc. unfold opener_open. by rewrite decide_True.
  - intros c e. apply notify_contexts.
  - intros more. apply world_run_contexts.
Qed.

(** C8, as stated, fails: for a context disposed before it is ready, an
    acquire call can still be made afterwards.  The readiness callback is not
    cancelled by the disposal; when readiness resolves later with a dirty
    model, a token is acquired, and it holds the indicator. *)
Lemma readiness_after_disposal_acquires :
  calls (snd (run tracked [Disposed; Ready true])) = [SetDirty 0] ∧
  holds (snd (run tracked [Disposed; Ready true])) = true ∧
  0 ∈ contexts (world_run new_world [Open (Some 0); Notify 0 Disposed]).
Proof. split; [reflexivity|]. split; [reflexivity|]. by vm_compute. Qed.

(** C8 (amended): [handleContext] connects the disposal handler before it
    returns, while the readiness callback is still waiting.  For a context
    disposed before it becomes ready the handler therefore runs; it finds no
    token and makes no call, so no token is held after the disposal, and as
    long as readiness does not resolve afterwards no acquire call is made.
    The context stays in the tracked set. *)
Theorem disposed_before_ready (before after : list Event) :
  resolves before = false → resolves after = false →
  disposed_connected handleContext = true ∧
  ready_pending handleContext = true ∧
  deliver Disposed (run tracked before) = onDisposed (run tracked before) ∧
  calls (snd (run tracked (before ++ Disposed :: after))) = [] ∧
  holds (snd (run tracked (before ++ Disposed :: after))) = false ∧
  (∀ w c, contexts (notify c Disposed w) = contexts w).
Proof.
  intros Hb Ha.
  assert (E : run tracked (before ++ Disposed :: after) = tracked).
  { apply run_inert. rewrite resolves_app, Hb. exact Ha. }
  rewrite E, (run_inert before Hb).
  repeat (split; [reflexivity|]). intros w c. apply notify_contexts.
Qed.

Lemma disposed_before_ready_witness :
  resolves [dirty_changed true] = false ∧ resolves [dirty_changed true] = false ∧
  calls (snd (run tracked ([dirty_changed true] ++ Disposed :: [dirty_changed true]))) = [].
Proof.
  split; [reflexivity|]. split; [reflexivity|].
  apply (disposed_before_ready [dirty_changed true] [dirty_changed true]); reflexivity.
Defined.

(** C10, as stated, fails: a path that is present and not the empty string
    can still be refused.  The guard is [!path] and the cast to [string] is
    not checked, so [false] (like [null] and [0]) throws instead of being
    delegated. *)
Lemma deleteFile_falsy_path_throws :
  ¬ deleteFile_as_stated (fun path => path) {["path" := VBool false]}.
Proof.
  intros [_ Hother].
  assert (Hne : ¬ (({["path" := VBool false]} : gmap string JSValue) !! "path" = None
                   ∨ ({["path" := VBool false]} : gmap string JSValue) !! "path"
                     = Some (VString ""))).
  { rewrite lookup_singleton_eq. intros [?|?]; discriminate. }
  specialize (Hother Hne (VBool false) (lookup_singleton_eq _ _)).
  vm_compute in Hother. discriminate Hother.
Qed.

(** C10 (amended): the command throws, without calling
    [docManager.deleteFile], when the path argument is missing or falsy (the
    empty string, and also [undefined], [null], [false], [0] or [NaN]);
    otherwise it calls [docManager.deleteFile(path)] once and returns its
    result.  For a string path that means: the empty string throws, any
    other string is delegated. *)
Theorem deleteFile_execute_spec {R : Type} (deleteFile : JSValue → R)
    (args : gmap string JSValue) :
  deleteFile_execute deleteFile args
    = (if truthy (arg args "path")
       then ([arg args "path"], Normal (deleteFile (arg args "path")))
       else ([], Throw "A non-empty path is required for docmanager:delete-file.")) ∧
  (args !! "path" = None → truthy (arg args "path") = false) ∧
  (∀ s, args !! "path" = Some (VString s) →
        truthy (arg args "path") = negb (String.eqb s "")).
Proof.
  split; [|split].
  - unfold deleteFile_execute.
    destruct (arg args "path") as [| |[]|f|s|l|l] eqn:E; try reflexivity.
    all: simpl typeof_undefined; cbv iota; by destruct (truthy _).
  - unfold arg. by intros ->.
  - unfold arg. by intros s ->.
Qed.

(** * Further properties of [handleContext] *)

Lemma NoDup_all_equal {A} (l : list A) (x : A) :
  NoDup l → (∀ y, y ∈ l → y = x) → l = [] ∨ l = [x].
Proof.
  intros Hnd Hall. destruct l as [|a [|b l]]; [by left | right | exfalso].
  - f_equal. apply Hall. left.
  - assert (a = x) by (apply Hall; left).
    assert (b = x) by (apply Hall; right; left). subst.
    apply NoDup_cons in Hnd as [Hnotin _]. apply Hnotin. left.
Qed.

Lemma held_tokens_NoDup evs : NoDup (held_tokens (calls (snd (run tracked evs)))).
Proof.
  unfold held_tokens. apply NoDup_filter.
  rewrite (sound_fresh _ (run_sound evs)). apply NoDup_seq.
Qed.

(** X1: in every run, whatever is delivered and in whatever order (also
    after a disposal), at most one token holds the indicator for the
    context, and it is the token in [disposable]: the tracker never loses
    track of a token that is still held. *)
Theorem at_most_one_token (evs : list Event) :
  let st := run tracked evs in
  held_tokens (calls (snd st)) = [] ∨
  ∃ t, disposable (fst st) = Some t ∧ held_tokens (calls (snd st)) = [t].
Proof.
  cbv zeta. pose proof (run_sound evs) as S.
  destruct (held_tokens (calls (snd (run tracked evs)))) as [|t l] eqn:E; [by left|].
  right. exists t.
  assert (Ht : disposable (fst (run tracked evs)) = Some t).
  { apply (sound_held _ S). rewrite E. left. }
  split; [done|].
  destruct (NoDup_all_equal (t :: l) t) as [?|?]; [| |done|done].
  - rewrite <- E. apply held_tokens_NoDup.
  - intros y Hy. rewrite <- E in Hy. apply (sound_held _ S) in Hy. congruence.
Qed.

(** X2: a document that is clean when it becomes ready and never reports
    [dirty = true] never touches the dirty indicator: no call is made on the
    host, whatever else is delivered. *)
Theorem clean_document_makes_no_call (evs : list Event) :
  forallb never_dirty evs = true →
  calls (snd (run tracked evs)) = [] ∧ disposable (fst (run tracked evs)) = None.
Proof.
  induction evs as [|e evs IH] using rev_ind; [done|].
  rewrite forallb_app, andb_true_iff, run_snoc. simpl. rewrite andb_true_r.
  intros [Hevs He]. destruct (IH Hevs) as [Hc Hd].
  destruct (run tracked evs) as [[d p c dc] h]. simpl in Hc, Hd. subst d.
  destruct e as [md | a | ]; unfold deliver; simpl in *.
  - destruct p; [|done]. unfold onReady. by destruct md.
  - destruct c; [|done]. unfold onStateChanged.
    destruct (String.eqb (name a) "dirty"); [|done].
    by destruct (strict_true (newValue a)).
  - by destruct dc.
Qed.

Lemma clean_document_makes_no_call_witness :
  forallb never_dirty
    [Ready false; StateChanged (mkArgs "readOnly" (VBool false) (VBool true));
     dirty_changed false; Disposed; dirty_changed false] = true ∧
  calls (snd (run tracked
    [Ready false; StateChanged (mkArgs "readOnly" (VBool false) (VBool true));
     dirty_changed false; Disposed; dirty_changed false])) = [].
Proof.
  split; [reflexivity|].
  apply (clean_document_makes_no_call
    [Ready false; StateChanged (mkArgs "readOnly" (VBool false) (VBool true));
     dirty_changed false; Disposed; dirty_changed false]).
  reflexivity.
Defined.

(** X3: notifications about other properties than [dirty] never matter:
    removing them from a run, from any state, leaves the outcome (tracker and
    calls on the host) the same. *)
Theorem only_dirty_notifications_matter (st : Tracker * Host) (evs : list Event) :
  run st (filter (fun e => about_dirty e = true) evs) = run st evs.
Proof.
  revert st. induction evs as [|e evs IH]; intros st; [done|].
  destruct (about_dirty e) eqn:E.
  - rewrite filter_cons_True by done. exact (IH (deliver e st)).
  - rewrite filter_cons_False by congruence. rewrite IH.
    destruct e as [md | a | ]; try discriminate. simpl in E.
    change (run st (StateChanged a :: evs)) with (run (deliver (StateChanged a) st) evs).
    f_equal. destruct st as [tr h]. unfold deliver, onStateChanged. simpl.
    rewrite E. by destruct (stateChanged_connected tr).
Qed.

(** X4: the disposal handler does not clear [disposable], and nothing comes
    of it.  When a context that holds a token is disposed, the disposed
    token stays in the variable, but the context has dropped what was
    connected: whatever is attempted afterwards (state changes, [dispose()]
    again, a readiness resolution) changes neither the tracker nor the
    host, and no token is ever disposed twice. *)
Theorem disposed_token_stays (evs later : list Event) :
  was_disposed evs = false →
  holds (snd (run tracked evs)) = true →
  let after := context_dispose (mkDocument false (run tracked evs)) in
  (∃ t, disposable (fst (handlers after)) = Some t ∧
        t ∈ released (calls (snd (handlers after)))) ∧
  play after later = after ∧
  NoDup (released (calls (snd (handlers (play after later))))).
Proof.
  intros Hf Hheld. cbv zeta. pose proof (run_sound evs) as S.
  pose proof (holds_connected evs Hheld) as Hc.
  assert (Hfinal : play (context_dispose (mkDocument false (run tracked evs))) later
                   = context_dispose (mkDocument false (run tracked evs))).
  { rewrite (context_dispose_undisposed _ S).
    apply disposed_document_final; [done | done |]. left. simpl.
    rewrite (sound_connected _ S) in Hc. by destruct (ready_pending _). }
  assert (Hnd : NoDup (released (calls (snd (deliver Disposed (run tracked evs)))))).
  { rewrite <- run_snoc. by apply terminal_released_NoDup, disposal_terminal_last. }
  rewrite Hfinal, (context_dispose_undisposed _ S). simpl.
  split; [|split; [done | exact Hnd]].
  apply holds_true in Hheld as [t Ht]. apply (sound_held _ S) in Ht.
  exists t. split; [done|]. pose proof (sound_disposed _ S) as DC. clear Hnd.
  destruct (run tracked evs) as [[d p c dc] h]. simpl in *. subst d dc.
  unfold deliver, onDisposed. simpl.
  rewrite released_dispose, elem_of_app, list_elem_of_singleton. auto.
Qed.

Lemma disposed_token_stays_witness :
  was_disposed [Ready true] = false ∧
  holds (snd (run tracked [Ready true])) = true ∧
  play (context_dispose (mkDocument false (run tracked [Ready true])))
       [Disposed; dirty_changed false; dirty_changed true; Ready true]
    = context_dispose (mkDocument false (run tracked [Ready true])).
Proof.
  split; [reflexivity|]. split; [reflexivity|].
  apply (disposed_token_stays [Ready true]
           [Disposed; dirty_changed false; dirty_changed true; Ready true]);
    reflexivity.
Defined.

(** * The trackers of a plugin *)

Lemma history_fold_snoc c acts a :
  foldl (history_step c) (false, []) (acts ++ [a])
  = history_step c (foldl (history_step c) (false, []) acts) a.
Proof. by rewrite foldl_snoc. Qed.

Lemma notify_trackers_absent c e ts h :
  c ∉ ts.*1 → notify_trackers c e ts h = (ts, h).
Proof.
  induction ts as [|[c' tr] ts IH]; [done|]. simpl.
  rewrite not_elem_of_cons. intros [Hne Hts].
  rewrite decide_False by done. by rewrite (IH Hts).
Qed.

Lemma notify_trackers_present c e ts1 tr ts2 h :
  c ∉ ts1.*1 → c ∉ ts2.*1 →
  notify_trackers c e (ts1 ++ (c, tr) :: ts2) h
  = (ts1 ++ (c, fst (deliver e (tr, h))) :: ts2, snd (deliver e (tr, h))).
Proof.
  intros H1 H2. induction ts1 as [|[c' tr'] ts1 IH]; simpl.
  - rewrite decide_True by done. destruct (deliver e (tr, h)) as [tr1 h1].
    by rewrite (notify_trackers_absent c e ts2 h1 H2).
  - simpl in H1. apply not_elem_of_cons in H1 as [Hne H1].
    rewrite decide_False by done. by rewrite (IH H1).
Qed.

(** The tracker made for a context is the only one. *)
Lemma tracker_split (ts : list (Context * Tracker)) c tr :
  NoDup ts.*1 → (c, tr) ∈ ts →
  ∃ ts1 ts2, ts = ts1 ++ (c, tr) :: ts2 ∧ (c ∉ ts1.*1) ∧ (c ∉ ts2.*1).
Proof.
  intros Hnd (ts1 & ts2 & ->)%list_elem_of_split. exists ts1, ts2.
  rewrite fmap_app, fmap_cons in Hnd. simpl in Hnd.
  apply NoDup_app in Hnd as (_ & Hdisj & Hnd2).
  apply NoDup_cons in Hnd2 as [Hnot2 _].
  split; [done|]. split; [|done].
  intros Hin. apply (Hdisj _ Hin). left.
Qed.

Lemma tracker_unique (ts1 ts2 : list (Context * Tracker)) c tr tr0 :
  c ∉ ts1.*1 → c ∉ ts2.*1 → (c, tr0) ∈ ts1 ++ (c, tr) :: ts2 → tr0 = tr.
Proof.
  intros H1 H2. rewrite elem_of_app, elem_of_cons.
  intros [Hin | [[= ->] | Hin]]; [exfalso | done | exfalso].
  - apply H1. apply list_elem_of_fmap. by exists (c, tr0).
  - apply H2. apply list_elem_of_fmap. by exists (c, tr0).
Qed.

(** Membership after the tracker of [c] was replaced. *)
Lemma tracker_replaced (ts1 ts2 : list (Context * Tracker)) c tr tr' c0 tr0 :
  c ∉ ts1.*1 → c ∉ ts2.*1 →
  (c0, tr0) ∈ ts1 ++ (c, tr') :: ts2 ↔
  (c0 = c ∧ tr0 = tr') ∨ (c0 ≠ c ∧ (c0, tr0) ∈ ts1 ++ (c, tr) :: ts2).
Proof.
  intros H1 H2.
  assert (Hne : ∀ ts : list (Context * Tracker), c ∉ ts.*1 → (c0, tr0) ∈ ts → c0 ≠ c).
  { intros ts Hts Hin ->. apply Hts. apply list_elem_of_fmap. by exists (c, tr0). }
  rewrite !elem_of_app, !elem_of_cons. split.
  - intros [Hin | [[= -> ->] | Hin]]; [right | by left | right].
    + split; [by apply (Hne ts1) | by left].
    + split; [by apply (Hne ts2) | by right; right].
  - intros [[-> ->] | [Hc [Hin | [[= -> ->] | Hin]]]]; auto.
    by destruct Hc.
Qed.

(** Delivery of an event to a well-formed tracker. *)
Lemma deliver_effect e tr h :
  well_formed tr →
  effect e tr h (deliver e (tr, h)) ∧ well_formed (fst (deliver e (tr, h))).
Proof.
  destruct tr as [d p c dc]. intros (Hp & Hdc & Hc). simpl in *. subst dc c.
  destruct e as [md | a | ]; unfold deliver; simpl.
  - destruct p; simpl.
    + rewrite (Hp eq_refl). unfold onReady. destruct md; simpl.
      * split; [by apply effect_acquire | done].
      * split; [by apply effect_none | done].
    + split; [by apply effect_none | done].
  - destruct p; simpl; [split; [by apply effect_none | done]|].
    unfold onStateChanged.
    destruct (String.eqb (name a) "dirty"); [|split; [by apply effect_none | done]].
    destruct (strict_true (newValue a)), d as [t|]; simpl.
    + split; [by apply effect_none | done].
    + split; [by apply effect_acquire | done].
    + split; [by apply (effect_release _ _ _ t) | done].
    + split; [by apply effect_none | done].
  - unfold onDisposed. simpl. destruct d as [t|].
    + split; [by apply (effect_dispose _ _ _ t) | done].
    + split; [by apply effect_none | done].
Qed.

Lemma held_tokens_setDirty cs n t :
  t ∈ held_tokens (cs ++ [SetDirty n]) → t = n ∨ t ∈ held_tokens cs.
Proof.
  rewrite !held_tokens_spec, released_setDirty, acquired_setDirty, elem_of_app,
    list_elem_of_singleton. tauto.
Qed.

Lemma held_tokens_dispose cs t' t :
  t ∈ held_tokens (cs ++ [Dispose t']) → t ≠ t' ∧ t ∈ held_tokens cs.
Proof.
  rewrite !held_tokens_spec, released_dispose, acquired_dispose, not_elem_of_app,
    list_elem_of_singleton. tauto.
Qed.

(** Delivering an event to the tracker of one context keeps the invariants
    of the plugin. *)
Lemma world_sound_replace ctxs ts1 c tr ts2 h e :
  c ∉ ts1.*1 → c ∉ ts2.*1 →
  world_sound (mkWorld ctxs (ts1 ++ (c, tr) :: ts2) h) →
  world_sound (mkWorld ctxs (ts1 ++ (c, fst (deliver e (tr, h))) :: ts2)
                       (snd (deliver e (tr, h)))).
Proof.
  intros H1 H2 [Honce F R O Hd W D]. simpl in *.
  assert (Hin : (c, tr) ∈ ts1 ++ (c, tr) :: ts2) by (rewrite elem_of_app; right; left).
  destruct (deliver_effect e tr h (W c tr Hin)) as [Heff Hwf'].
  destruct (deliver e (tr, h)) as [tr' h']. simpl in *.
  assert (Hback : ∀ c0 tr0, (c0, tr0) ∈ ts1 ++ (c, tr') :: ts2 →
            (c0 = c ∧ tr0 = tr') ∨ (c0 ≠ c ∧ (c0, tr0) ∈ ts1 ++ (c, tr) :: ts2)).
  { intros c0 tr0. by apply tracker_replaced. }
  assert (Hfwd : ∀ c0 tr0, c0 ≠ c → (c0, tr0) ∈ ts1 ++ (c, tr) :: ts2 →
            (c0, tr0) ∈ ts1 ++ (c, tr') :: ts2).
  { intros c0 tr0 Hne Hold. apply (tracker_replaced ts1 ts2 c tr tr'); auto. }
  assert (Hnew : (c, tr') ∈ ts1 ++ (c, tr') :: ts2) by (rewrite elem_of_app; right; left).
  assert (Hown : ∀ t, t ∈ held_tokens (calls h) → disposable tr ≠ Some t →
            ∃ c0 tr0, (c0, tr0) ∈ ts1 ++ (c, tr') :: ts2 ∧ disposable tr0 = Some t).
  { intros t Ht Hnot. destruct (Hd t Ht) as (c0 & tr0 & Hin0 & Hd0).
    exists c0, tr0. split; [|done]. apply Hfwd; [|done].
    intros ->. apply (tracker_unique ts1 ts2 c tr tr0) in Hin0; [|done|done].
    congruence. }
  assert (Honce' : tracked_once (mkWorld ctxs (ts1 ++ (c, tr') :: ts2) h')).
  { unfold tracked_once in *. simpl in *. by rewrite fmap_app, fmap_cons in *. }
  assert (W' : ∀ c0 tr0, (c0, tr0) ∈ ts1 ++ (c, tr') :: ts2 → well_formed tr0).
  { intros c0 tr0 [[-> ->] | [_ Hold]]%Hback; [done | by apply (W c0)]. }
  inversion Heff as [tr1 Hsame Hdis | tr1 Hnone He Hsome | t tr1 Hsome He Hnone
                    | t Hsome He]; subst.
  - (* nothing on the host *)
    split; simpl; try done.
    + intros c0 tr0 t [[-> ->] | [_ Hold]]%Hback Ht.
      * apply (O c tr); [done | congruence].
      * by apply (O c0 tr0).
    + intros t Ht. destruct (decide (disposable tr = Some t)) as [Heq | Hneq].
      * exists c, tr'. split; [done | congruence].
      * by apply Hown.
    + intros c0 c0' tr0 tr0' t [[-> ->] | [Hne Hold]]%Hback
        [[-> ->] | [Hne' Hold']]%Hback Ht Ht'; try done.
      * apply (D c c0' tr tr0' t); auto. congruence.
      * apply (D c0 c tr0 tr t); auto. congruence.
      * by apply (D c0 c0' tr0 tr0' t).
  - (* a token is acquired *)
    assert (Hfresh : ∀ c0 tr0, (c0, tr0) ∈ ts1 ++ (c, tr) :: ts2 →
              disposable tr0 ≠ Some (next_token h)).
    { intros c0 tr0 Hold Ht. pose proof (O c0 tr0 _ Hold Ht) as Hacq.
      rewrite F in Hacq. apply elem_of_seq in Hacq. lia. }
    split; simpl; try done.
    + rewrite acquired_setDirty, F. exact (eq_sym (seq_S (next_token h) 0)).
    + intros t. rewrite released_setDirty, acquired_setDirty, elem_of_app. auto.
    + intros c0 tr0 t [[-> ->] | [_ Hold]]%Hback Ht;
        rewrite acquired_setDirty, elem_of_app, list_elem_of_singleton.
      * right. congruence.
      * left. by apply (O c0 tr0).
    + intros t [-> | Ht]%held_tokens_setDirty.
      * by exists c, tr'.
      * apply Hown; [done | congruence].
    + intros c0 c0' tr0 tr0' t [[-> ->] | [Hne Hold]]%Hback
        [[-> ->] | [Hne' Hold']]%Hback Ht Ht'; try done.
      * destruct (Hfresh c0' tr0' Hold'). congruence.
      * destruct (Hfresh c0 tr0 Hold). congruence.
      * by apply (D c0 c0' tr0 tr0' t).
  - (* the token is released and cleared *)
    split; simpl; try done.
    + by rewrite acquired_dispose.
    + intros t'. rewrite released_dispose, acquired_dispose, elem_of_app,
        list_elem_of_singleton.
      intros [Hin' | ->]; [auto | by apply (O c tr)].
    + intros c0 tr0 t' [[-> ->] | [_ Hold]]%Hback Ht; [congruence|].
      rewrite acquired_dispose. by apply (O c0 tr0).
    + intros t' [Hne Ht]%held_tokens_dispose. apply Hown; [done | congruence].
    + intros c0 c0' tr0 tr0' t' [[-> ->] | [Hne Hold]]%Hback
        [[-> ->] | [Hne' Hold']]%Hback Ht Ht'; try congruence.
      by apply (D c0 c0' tr0 tr0' t').
  - (* the token is released and kept *)
    split; simpl; try done.
    + by rewrite acquired_dispose.
    + intros t'. rewrite released_dispose, acquired_dispose, elem_of_app,
        list_elem_of_singleton.
      intros [Hin' | ->]; [auto | by apply (O c tr')].
    + intros c0 tr0 t'. rewrite acquired_dispose. apply O.
    + intros t' [Hne Ht]%held_tokens_dispose. by apply Hd.
Qed.

(** What [notify] does: the one tracker of the context takes the event, on
    the shared application; a context without tracker takes nothing. *)
Lemma notify_untracked c e w :
  c ∉ (trackers w).*1 → notify c e w = w.
Proof.
  intros Hc. unfold notify. rewrite (notify_trackers_absent c e _ _ Hc). by destruct w.
Qed.

Lemma notify_tracked c e w ts1 tr ts2 :
  trackers w = ts1 ++ (c, tr) :: ts2 → c ∉ ts1.*1 → c ∉ ts2.*1 →
  notify c e w = mkWorld (contexts w) (ts1 ++ (c, fst (deliver e (tr, host w))) :: ts2)
                         (snd (deliver e (tr, host w))).
Proof.
  intros Hts H1 H2. unfold notify. by rewrite Hts, (notify_trackers_present c e _ _ _ _ H1 H2).
Qed.

Lemma act_world_sound w a : world_sound w → world_sound (act w a).
Proof.
  intros S. destruct a as [[c|] | c e]; simpl; [| done |].
  - case_decide as Hin; [done|].
    pose proof (act_tracked_once w (Open (Some c)) (ws_once _ S)) as Honce.
    simpl in Honce. rewrite decide_False in Honce by done.
    destruct S as [_ F R O Hd W D].
    split; simpl; try done.
    + intros c0 tr0 t [Hold | [= -> ->]%list_elem_of_singleton]%elem_of_app Ht;
        [by apply (O c0 tr0) | discriminate].
    + intros t Ht. destruct (Hd t Ht) as (c0 & tr0 & Hin0 & Hd0).
      exists c0, tr0. split; [|done]. apply elem_of_app. by left.
    + intros c0 tr0 [Hold | [= -> ->]%list_elem_of_singleton]%elem_of_app;
        [by apply (W c0) | done].
    + intros c0 c0' tr0 tr0' t
        [Hold | [= -> ->]%list_elem_of_singleton]%elem_of_app
        [Hold' | [= -> ->]%list_elem_of_singleton]%elem_of_app Ht Ht';
        try discriminate.
      by apply (D c0 c0' tr0 tr0' t).
  - destruct (decide (c ∈ (trackers w).*1)) as [Hin | Hnot].
    + apply list_elem_of_fmap in Hin as ([c' tr] & -> & Hin). simpl.
      destruct (tracker_split _ _ _ (proj1 (ws_once _ S)) Hin) as (ts1 & ts2 & Hts & H1 & H2).
      rewrite (notify_tracked _ e w ts1 tr ts2 Hts H1 H2).
      apply world_sound_replace; [done | done |].
      rewrite <- Hts. by destruct w.
    + by rewrite notify_untracked.
Qed.

Lemma world_sound_new : world_sound new_world.
Proof.
  split; simpl; try done.
  - split; simpl; [constructor | set_solver].
  - intros c tr t Hin. by apply elem_of_nil in Hin.
  - intros t Hin. unfold held_tokens in Hin. simpl in Hin. by apply elem_of_nil in Hin.
  - intros c tr Hin. by apply elem_of_nil in Hin.
  - intros c c' tr tr' t Hin. by apply elem_of_nil in Hin.
Qed.

Lemma world_run_sound acts : world_sound (world_run new_world acts).
Proof.
  induction acts as [|a acts IH] using rev_ind; [apply world_sound_new|].
  rewrite world_run_snoc. by apply act_world_sound.
Qed.

(** X5: in every run of the plugin, with any number of contexts and events
    in any order, every token that holds the application's dirty indicator
    is in the [disposable] variable of the tracker of exactly one tracked
    context: no hold is orphaned, and two contexts never share a token. *)
Theorem every_hold_has_an_owner (acts : list Action) :
  let w := world_run new_world acts in
  (∀ t, t ∈ held_tokens (calls (host w)) →
        ∃ c tr, c ∈ contexts w ∧ (c, tr) ∈ trackers w ∧ disposable tr = Some t) ∧
  (∀ c c' tr tr' t, (c, tr) ∈ trackers w → (c', tr') ∈ trackers w →
        disposable tr = Some t → disposable tr' = Some t → c = c' ∧ tr = tr').
Proof.
  cbv zeta. pose proof (world_run_sound acts) as S. split.
  - intros t Ht. destruct (ws_held _ S t Ht) as (c & tr & Hin & Hd).
    exists c, tr. split; [|done].
    apply (proj2 (ws_once _ S)). apply list_elem_of_fmap. by exists (c, tr).
  - intros c c' tr tr' t Hin Hin' Ht Ht'.
    pose proof (ws_distinct _ S c c' tr tr' t Hin Hin' Ht Ht') as <-.
    split; [done|].
    destruct (tracker_split _ _ _ (proj1 (ws_once _ S)) Hin) as (ts1 & ts2 & Hts & H1 & H2).
    rewrite Hts in Hin'. symmetry. by apply (tracker_unique ts1 ts2 c tr tr').
Qed.

(** ** Each context on its own *)

Lemma history_snoc_open c acts context :
  history c (acts ++ [Open context]) = history c acts.
Proof.
  unfold history. rewrite history_fold_snoc.
  destruct context as [c'|]; simpl; [|done]. by case_decide.
Qed.

Lemma history_snoc_other c c' e acts :
  c' ≠ c → history c (acts ++ [Notify c' e]) = history c acts.
Proof.
  intros Hne. unfold history. rewrite history_fold_snoc. simpl.
  by rewrite bool_decide_eq_false_2, andb_false_r.
Qed.

Lemma history_snoc_notify c e acts :
  opened c acts = true → history c (acts ++ [Notify c e]) = history c acts ++ [e].
Proof.
  unfold opened, history. intros Ho. rewrite history_fold_snoc. simpl.
  by rewrite Ho, bool_decide_eq_true_2.
Qed.

Lemma history_unopened c acts : opened c acts = false → history c acts = [].
Proof.
  unfold opened, history.
  induction acts as [|a acts IH] using rev_ind; [done|].
  rewrite history_fold_snoc.
  destruct (foldl (history_step c) (false, []) acts) as [o evs]. simpl in IH.
  destruct a as [[c'|] | c' e]; simpl.
  - case_decide; simpl; [intros [=] | exact IH].
  - exact IH.
  - destruct o; simpl; [|exact IH]. destruct (bool_decide (c' = c)); simpl; intros [=].
Qed.

(** A context has a tracker exactly when [opener.open] has seen it. *)
Lemma opened_contexts c acts :
  opened c acts = true ↔ c ∈ contexts (world_run new_world acts).
Proof.
  unfold opened. induction acts as [|a acts IH] using rev_ind.
  - simpl. split; [discriminate | set_solver].
  - rewrite history_fold_snoc, world_run_snoc.
    destruct (foldl (history_step c) (false, []) acts) as [o evs]. simpl in IH.
    destruct a as [[c'|] | c' e]; simpl.
    + destruct (decide (c' = c)) as [->|Hne]; simpl.
      * split; [intros _ | done]. case_decide; [done|].
        simpl. apply elem_of_union. left. by apply elem_of_singleton.
      * rewrite IH. case_decide; [done|].
        simpl. rewrite elem_of_union, elem_of_singleton. intuition congruence.
    + exact IH.
    + rewrite notify_contexts. by destruct (o && bool_decide (c' = c)).
Qed.

Lemma deliver_similar e tr1 h1 tr2 h2 :
  similar tr1 tr2 → similar (fst (deliver e (tr1, h1))) (fst (deliver e (tr2, h2))).
Proof.
  destruct tr1 as [d1 p1 c1 dc1], tr2 as [d2 p2 c2 dc2].
  intros (Hp & Hc & Hdc & Hd). simpl in *. subst p2 c2 dc2.
  assert (Hsome : ∀ t1 t2 : Token, is_Some (Some t1) ↔ is_Some (Some t2)) by (split; eauto).
  assert (Hnone : is_Some (@None Token) ↔ is_Some (@None Token)) by done.
  assert (Hcase : (d1 = None ∧ d2 = None) ∨ (is_Some d1 ∧ is_Some d2)).
  { destruct d1, d2; eauto; [destruct Hd as [Hd _] | destruct Hd as [_ Hd]];
      destruct Hd as [? ?]; eauto; discriminate. }
  destruct e as [md | a | ]; unfold deliver, similar; simpl.
  - destruct p1; [|done]. unfold onReady. destruct md; simpl; auto.
  - destruct c1; [|done]. unfold onStateChanged.
    destruct (String.eqb (name a) "dirty"); [|done].
    destruct Hcase as [[-> ->] | [[t1 ->] [t2 ->]]];
      destruct (strict_true (newValue a)); simpl; auto.
  - destruct dc1; [|done]. unfold onDisposed. simpl.
    destruct Hcase as [[-> ->] | [[t1 ->] [t2 ->]]]; simpl; auto.
Qed.

(** The tracker of a context is where its own events alone would have put
    it. *)
Lemma tracker_follows_history (acts : list Action) (c : Context) (tr : Tracker) :
  (c, tr) ∈ trackers (world_run new_world acts) →
  similar tr (fst (run tracked (history c acts))).
Proof.
  revert c tr. induction acts as [|a acts IH] using rev_ind; intros c tr.
  - intros Hin. by apply elem_of_nil in Hin.
  - rewrite world_run_snoc. pose proof (world_run_sound acts) as S.
    set (w := world_run new_world acts) in *.
    assert (Hctx : ∀ c0 tr0, (c0, tr0) ∈ trackers w → c0 ∈ contexts w).
    { intros c0 tr0 Hin. apply (proj2 (ws_once _ S)), list_elem_of_fmap. by exists (c0, tr0). }
    destruct a as [[c'|] | c' e]; simpl.
    + rewrite history_snoc_open. case_decide as Hin'; [apply IH|]. simpl.
      intros [Hold | [= -> ->]%list_elem_of_singleton]%elem_of_app; [by apply IH|].
      rewrite history_unopened; [done|].
      apply not_true_iff_false. by rewrite opened_contexts.
    + rewrite history_snoc_open. apply IH.
    + destruct (decide (c' ∈ (trackers w).*1)) as [Hin' | Hnot].
      * apply list_elem_of_fmap in Hin' as ([c0 tr0] & -> & Hin0). simpl.
        destruct (tracker_split _ _ _ (proj1 (ws_once _ S)) Hin0)
          as (ts1 & ts2 & Hts & H1 & H2).
        rewrite (notify_tracked _ e w ts1 tr0 ts2 Hts H1 H2). simpl.
        intros [[-> ->] | [Hne Hold]]%(tracker_replaced ts1 ts2 c0 tr0).
        -- rewrite history_snoc_notify, run_snoc.
           ++ destruct (run tracked (history c0 acts)) as [tr1 h1] eqn:E.
              apply deliver_similar. specialize (IH c0 tr0 Hin0). by rewrite E in IH.
           ++ apply opened_contexts. by apply (Hctx c0 tr0).
        -- rewrite history_snoc_other by done. apply IH. by rewrite Hts.
        -- done.
        -- done.
      * rewrite notify_untracked by done. intros Hin.
        rewrite history_snoc_other; [by apply IH|].
        intros ->. apply Hnot, list_elem_of_fmap. by exists (c, tr).
Qed.


(** X6: contexts are tracked independently.  In every run of the plugin the
    tracker of a context is in the situation it would be in had its own
    events been delivered alone: same registrations, and a token in
    [disposable] in one exactly when in the other.  An event of another
    context leaves the tracker exactly as it is, token included. *)
Theorem contexts_independent (acts : list Action) (c : Context) (tr : Tracker) :
  (c, tr) ∈ trackers (world_run new_world acts) →
  similar tr (fst (run tracked (history c acts))) ∧
  ∀ c' e, c' ≠ c →
    (c, tr) ∈ trackers (world_run new_world (acts ++ [Notify c' e])) ∧
    history c (acts ++ [Notify c' e]) = history c acts.
Proof.
  intros Hin. split; [by apply tracker_follows_history|].
  intros c' e Hne. split; [|by apply history_snoc_other].
  rewrite world_run_snoc. pose proof (world_run_sound acts) as S. simpl.
  destruct (decide (c' ∈ (trackers (world_run new_world acts)).*1)) as [Hin' | Hnot].
  - apply list_elem_of_fmap in Hin' as ([c0 tr0] & -> & Hin0). simpl in *.
    destruct (tracker_split _ _ _ (proj1 (ws_once _ S)) Hin0)
      as (ts1 & ts2 & Hts & H1 & H2).
    rewrite (notify_tracked _ e _ ts1 tr0 ts2 Hts H1 H2). simpl.
    apply (tracker_replaced ts1 ts2 c0 tr0); [done | done |].
    right. split; [done | by rewrite <- Hts].
  - by rewrite notify_untracked.
Qed.

Lemma contexts_independent_witness :
  (1, mkTracker (Some 1) false true true)
    ∈ trackers (world_run new_world
        [Open (Some 0); Open (Some 1); Notify 0 (Ready true); Notify 1 (Ready false);
         Notify 1 (dirty_changed true); Notify 0 (dirty_changed false)]) ∧
  similar (mkTracker (Some 1) false true true)
    (fst (run tracked (history 1
        [Open (Some 0); Open (Some 1); Notify 0 (Ready true); Notify 1 (Ready false);
         Notify 1 (dirty_changed true); Notify 0 (dirty_changed false)]))).
Proof.
  assert (Hin : (1, mkTracker (Some 1) false true true)
    ∈ trackers (world_run new_world
        [Open (Some 0); Open (Some 1); Notify 0 (Ready true); Notify 1 (Ready false);
         Notify 1 (dirty_changed true); Notify 0 (dirty_changed false)])).
  { vm_compute. right. left. }
  split; [exact Hin|]. exact (proj1 (contexts_independent _ _ _ Hin)).
Defined.

(** ** The application's indicator *)

Lemma disposal_terminal_snoc evs e :
  disposal_terminal (evs ++ [e]) = true → was_disposed evs = false.
Proof.
  intros [Hf | (evs' & Heq & Hf)]%disposal_terminal_inv.
  - rewrite was_disposed_snoc in Hf. by apply orb_false_iff in Hf as [? _].
  - by apply app_inj_tail in Heq as [-> _].
Qed.

Lemma history_snoc_cases c acts a :
  history c (acts ++ [a]) = history c acts ∨
  ∃ e, history c (acts ++ [a]) = history c acts ++ [e].
Proof.
  unfold history. rewrite history_fold_snoc.
  destruct (foldl (history_step c) (false, []) acts) as [o evs].
  destruct a as [[c'|] | c' e]; simpl.
  - left. by case_decide.
  - by left.
  - destruct (o && bool_decide (c' = c)); [right; by exists e | by left].
Qed.

Lemma disposals_terminal_snoc acts a :
  disposals_terminal (acts ++ [a]) → disposals_terminal acts.
Proof.
  intros H c. specialize (H c).
  destruct (history_snoc_cases c acts a) as [E | [e E]]; rewrite E in H; [done|].
  by apply disposal_terminal_free, (disposal_terminal_snoc _ e).
Qed.

Lemma world_run_live acts :
  disposals_terminal acts → world_live acts (world_run new_world acts).
Proof.
  induction acts as [|a acts IH] using rev_ind.
  - intros _ c tr t Hin. by apply elem_of_nil in Hin.
  - intros Hterm. specialize (IH (disposals_terminal_snoc _ _ Hterm)).
    rewrite world_run_snoc. pose proof (world_run_sound acts) as S.
    set (w := world_run new_world acts) in *.
    destruct a as [[c'|] | c' e]; simpl.
    + intros c tr t. rewrite history_snoc_open. case_decide; [apply IH|]. simpl.
      intros [Hold | [= -> ->]%list_elem_of_singleton]%elem_of_app; [by apply IH | done].
    + intros c tr t. rewrite history_snoc_open. apply IH.
    + destruct (decide (c' ∈ (trackers w).*1)) as [Hin' | Hnot].
      * apply list_elem_of_fmap in Hin' as ([c0 tr0] & -> & Hin0). simpl.
        destruct (tracker_split _ _ _ (proj1 (ws_once _ S)) Hin0)
          as (ts1 & ts2 & Hts & H1 & H2).
        rewrite (notify_tracked _ e w ts1 tr0 ts2 Hts H1 H2).
        assert (Hopen : opened c0 acts = true).
        { apply opened_contexts, (proj2 (ws_once _ S)), list_elem_of_fmap.
          by exists (c0, tr0). }
        assert (Hlive : was_disposed (history c0 acts) = false).
        { apply (disposal_terminal_snoc _ e). rewrite <- history_snoc_notify by done.
          apply Hterm. }
        destruct (deliver_effect e tr0 (host w) (ws_wf _ S c0 tr0 Hin0)) as [Heff _].
        destruct (deliver e (tr0, host w)) as [tr' h']. simpl.
        intros c tr t [[-> ->] | [Hne Hold]]%(tracker_replaced ts1 ts2 c0 tr0) Ht;
          [| |done|done]; simpl.
        -- rewrite history_snoc_notify, was_disposed_snoc, Hlive by done. simpl.
           inversion Heff as [tr1 Hsame Hdis | tr1 Hnone He Hsome | t1 tr1 Hsome He Hnone
                             | t1 Hsome He]; subst; cbn [setDirty dispose calls snd].
           ++ rewrite (IH c0 tr0 t Hin0) by congruence. rewrite Hlive.
              destruct (is_disposed e); [|done].
              specialize (Hdis eq_refl). congruence.
           ++ rewrite released_setDirty, He. split; [|done]. intros Hr.
              apply (ws_released _ S) in Hr. rewrite (ws_fresh _ S) in Hr.
              apply elem_of_seq in Hr. simplify_eq. lia.
           ++ congruence.
           ++ rewrite released_dispose, elem_of_app, list_elem_of_singleton, He.
              split; [done|]. intros _. right. congruence.
        -- rewrite history_snoc_other by done. rewrite <- Hts in Hold.
           rewrite <- (IH c tr t Hold Ht).
           inversion Heff as [tr1 Hsame Hdis | tr1 Hnone He Hsome | t1 tr1 Hsome He Hnone
                             | t1 Hsome He]; subst; cbn [setDirty dispose calls snd].
           ++ done.
           ++ by rewrite released_setDirty.
           ++ rewrite released_dispose, elem_of_app, list_elem_of_singleton.
              split; [|auto]. intros [?| ->]; [done|].
              destruct Hne. by apply (ws_distinct _ S c c0 tr tr0 t1).
           ++ rewrite released_dispose, elem_of_app, list_elem_of_singleton.
              split; [|auto]. intros [?| ->]; [done|].
              destruct Hne. by apply (ws_distinct _ S c c0 tr tr' t1).
      * rewrite notify_untracked by done. intros c tr t Hin.
        rewrite history_snoc_other; [by apply IH|].
        intros ->. apply Hnot, list_elem_of_fmap. by exists (c, tr).
Qed.

(** X7: the purpose of the tracking.  When no context is sent anything after
    its disposal, the application's dirty indicator is held exactly when
    some tracked context that has not been disposed was last observed
    dirty. *)
Theorem application_dirty_iff_some_document_dirty (acts : list Action) :
  disposals_terminal acts →
  holds (host (world_run new_world acts)) = true ↔
  ∃ c, c ∈ contexts (world_run new_world acts) ∧
       last_observed (history c acts) = Some true ∧
       was_disposed (history c acts) = false.
Proof.
  intros Hterm. pose proof (world_run_sound acts) as S.
  pose proof (world_run_live acts Hterm) as L.
  assert (Hdirty : ∀ c tr, (c, tr) ∈ trackers (world_run new_world acts) →
            was_disposed (history c acts) = false →
            is_Some (disposable tr) ↔ last_observed (history c acts) = Some true).
  { intros c tr Hin Hf.
    destruct (tracker_follows_history acts c tr Hin) as (_ & _ & _ & ->).
    unfold last_observed. by destruct (run_agrees (history c acts) Hf) as [_ ->]. }
  rewrite holds_true. split.
  - intros [t Ht]. destruct (ws_held _ S t Ht) as (c & tr & Hin & Hd).
    apply held_tokens_spec in Ht as [_ Hr].
    assert (Hf : was_disposed (history c acts) = false).
    { apply not_true_iff_false. by rewrite <- (L c tr t Hin Hd). }
    exists c. split; [|split; [|done]].
    + apply (proj2 (ws_once _ S)), list_elem_of_fmap. by exists (c, tr).
    + apply (Hdirty c tr Hin Hf). eauto.
  - intros (c & Hc & Hlast & Hf).
    apply (proj2 (ws_once _ S)), list_elem_of_fmap in Hc as ([c' tr] & -> & Hin).
    simpl in *. apply (Hdirty c' tr Hin Hf) in Hlast as [t Ht].
    exists t. apply held_tokens_spec. split.
    + by apply (ws_owned _ S c' tr).
    + rewrite (L c' tr t Hin Ht). by rewrite Hf.
Qed.

Lemma application_dirty_iff_some_document_dirty_witness :
  disposals_terminal
    [Open (Some 0); Open (Some 1); Notify 0 (Ready true); Notify 1 (Ready false);
     Notify 0 Disposed; Notify 1 (dirty_changed true)] ∧
  holds (host (world_run new_world
    [Open (Some 0); Open (Some 1); Notify 0 (Ready true); Notify 1 (Ready false);
     Notify 0 Disposed; Notify 1 (dirty_changed true)])) = true.
Proof.
  assert (Hterm : disposals_terminal
    [Open (Some 0); Open (Some 1); Notify 0 (Ready true); Notify 1 (Ready false);
     Notify 0 Disposed; Notify 1 (dirty_changed true)]).
  { intros [|[|c]]; reflexivity. }
  split; [exact Hterm|].
  apply (application_dirty_iff_some_document_dirty _ Hterm).
  exists 1. split; [by vm_compute | split; reflexivity].
Defined.

(** * [opener.open] and the widget *)

Lemma open_widget_id w s :
  widget_id (opener_open_widget w s).1.1
  = if String.eqb (widget_id w) ""
    then "document-manager-" +:+ pretty (Private.increment (private_id s))
    else widget_id w.
Proof.
  unfold opener_open_widget.
  destruct (opener_open _ _), (String.eqb (widget_id w) ""); reflexivity.
Qed.

Lemma open_widget_dataset w s :
  title_dataset (opener_open_widget w s).1.1
  = title_dataset w ∪ {["type" := "document-title"]}.
Proof.
  unfold opener_open_widget.
  destruct (opener_open _ _), (String.eqb (widget_id w) ""); reflexivity.
Qed.

Lemma open_widget_context w s :
  contextForWidget (opener_open_widget w s).1.1 = contextForWidget w.
Proof.
  unfold opener_open_widget.
  destruct (opener_open _ _), (String.eqb (widget_id w) ""); reflexivity.
Qed.

Lemma open_private_id w s :
  private_id (opener_open_widget w s).1.2
  = if String.eqb (widget_id w) "" then Private.increment (private_id s) else private_id s.
Proof.
  unfold opener_open_widget.
  destruct (opener_open _ _), (String.eqb (widget_id w) ""); reflexivity.
Qed.

Lemma open_shell_calls w s :
  shell_calls (opener_open_widget w s).1.2
  = shell_calls s
    ++ (if isAttached w then [] else [AddToMainArea (widget_id (opener_open_widget w s).1.1)])
    ++ [ActivateById (widget_id (opener_open_widget w s).1.1)].
Proof.
  unfold opener_open_widget.
  destruct (opener_open _ _), (String.eqb (widget_id w) ""); reflexivity.
Qed.

(** For the tracking, opening a widget is the [Open] action of its context. *)
Lemma open_tracking w s :
  tracking (opener_open_widget w s).1.2 = act (tracking s) (Open (contextForWidget w)).
Proof.
  unfold opener_open_widget, act.
  destruct (opener_open (contextForWidget w) (tracking s)); reflexivity.
Qed.

Lemma open_outcome w s :
  (opener_open_widget w s).2
  = match contextForWidget w with Some _ => Normal () | None => Throw "TypeError" end.
Proof.
  unfold opener_open_widget, opener_open.
  destruct (contextForWidget w); [by case_decide | done].
Qed.

Lemma increment_ge n : (n ≤ Private.increment n)%N.
Proof. unfold Private.increment. destruct (N.ltb_spec n (2 ^ 53)); lia. Qed.

Lemma open_counter_mono w s : (private_id s ≤ private_id (opener_open_widget w s).1.2)%N.
Proof.
  rewrite open_private_id. destruct (String.eqb _ _); [apply increment_ge | lia].
Qed.

Lemma open_all_counter_mono ws s : (private_id s ≤ private_id (open_all ws s).2)%N.
Proof.
  revert s. induction ws as [|w ws IH]; intros s; [simpl; lia|]. simpl.
  pose proof (open_counter_mono w s) as H1.
  destruct (opener_open_widget w s) as [[w' s'] out]. simpl in H1.
  specialize (IH s'). destruct (open_all ws s') as [ws' s'']. simpl in *. lia.
Qed.

Lemma append_inj_l (p a b : string) : p +:+ a = p +:+ b → a = b.
Proof. induction p as [|ch p IH]; simpl; [done|]. intros [= H]. by apply IH. Qed.

(** X8: the ids [opener.open] generates are unique.  Two widgets that come
    without an id get different ids, whatever is opened between them, as
    long as the counter has not reached [2^53] (where [++Private.id] stops
    counting). *)
Theorem generated_ids_distinct (s : Session) (w1 w2 : Widget) (between : list Widget) :
  widget_id w1 = "" → widget_id w2 = "" →
  let s1 := (opener_open_widget w1 s).1.2 in
  let s2 := (open_all between s1).2 in
  (private_id s2 < 2 ^ 53)%N →
  widget_id (opener_open_widget w1 s).1.1 ≠ widget_id (opener_open_widget w2 s2).1.1.
Proof.
  intros Hw1 Hw2 s1 s2 Hlt.
  pose proof (open_all_counter_mono between s1) as Hmono. fold s2 in Hmono.
  assert (Hs1 : private_id s1 = Private.increment (private_id s)).
  { unfold s1. by rewrite open_private_id, Hw1. }
  rewrite !open_widget_id, Hw1, Hw2. simpl.
  intros Heq%append_inj_l%(inj pretty).
  rewrite <- Hs1 in Heq. unfold Private.increment in Heq.
  destruct (N.ltb_spec (private_id s2) (2 ^ 53)); lia.
Qed.

Lemma generated_ids_distinct_witness :
  widget_id (opener_open_widget (mkWidget "" ∅ false (Some 0)) new_session).1.1
  ≠ widget_id (opener_open_widget (mkWidget "" ∅ false (Some 1))
                 (open_all [mkWidget "mine" ∅ true (Some 2)]
                    (opener_open_widget (mkWidget "" ∅ false (Some 0)) new_session).1.2).2).1.1.
Proof.
  apply (generated_ids_distinct new_session (mkWidget "" ∅ false (Some 0))
           (mkWidget "" ∅ false (Some 1)) [mkWidget "mine" ∅ true (Some 2)]);
    [reflexivity | reflexivity | by vm_compute].
Defined.

Lemma act_open_twice w context :
  act (act w (Open context)) (Open context) = act w (Open context).
Proof.
  destruct context as [c|]; [|done]. unfold act, opener_open.
  destruct (decide (c ∈ contexts w)) as [Hin | Hnot].
  - by rewrite decide_True.
  - rewrite decide_True; [done|]. simpl. apply elem_of_union. left.
    by apply elem_of_singleton.
Qed.

(** X9: opening a widget again only activates it.  After a first
    [opener.open], a second one on the same widget (attached by then or not)
    leaves its id and dataset, the id counter and the tracked contexts and
    trackers as they are and completes the same way; it only repeats the
    shell calls. *)
Theorem reopen_only_activates (w : Widget) (s : Session) (attached : bool) :
  let first := opener_open_widget w s in
  let w1 := mkWidget (widget_id first.1.1) (title_dataset first.1.1) attached
                     (contextForWidget first.1.1) in
  let second := opener_open_widget w1 first.1.2 in
  widget_id second.1.1 = widget_id first.1.1 ∧
  title_dataset second.1.1 = title_dataset first.1.1 ∧
  private_id second.1.2 = private_id first.1.2 ∧
  tracking second.1.2 = tracking first.1.2 ∧
  second.2 = first.2 ∧
  shell_calls second.1.2
    = shell_calls first.1.2
      ++ (if attached then [] else [AddToMainArea (widget_id first.1.1)])
      ++ [ActivateById (widget_id first.1.1)].
Proof.
  cbv zeta.
  assert (Hid : String.eqb (widget_id (opener_open_widget w s).1.1) "" = false).
  { rewrite open_widget_id. destruct (String.eqb (widget_id w) "") eqn:E; [reflexivity | done]. }
  assert (Hid2 : widget_id (opener_open_widget
            (mkWidget (widget_id (opener_open_widget w s).1.1)
                      (title_dataset (opener_open_widget w s).1.1) attached
                      (contextForWidget (opener_open_widget w s).1.1))
            (opener_open_widget w s).1.2).1.1
          = widget_id (opener_open_widget w s).1.1).
  { rewrite (open_widget_id (mkWidget _ _ _ _)). simpl. by rewrite Hid. }
  split; [exact Hid2|]. split; [|split; [|split; [|split]]].
  - rewrite (open_widget_dataset (mkWidget _ _ _ _)). simpl.
    rewrite open_widget_dataset. by rewrite <- (assoc_L (∪)), (idemp_L (∪)).
  - rewrite (open_private_id (mkWidget _ _ _ _)). simpl. by rewrite Hid.
  - rewrite (open_tracking (mkWidget _ _ _ _)). simpl.
    rewrite open_widget_context, open_tracking. apply act_open_twice.
  - rewrite (open_outcome (mkWidget _ _ _ _)). simpl.
    by rewrite open_widget_context, open_outcome.
  - rewrite (open_shell_calls (mkWidget _ _ _ _)), Hid2. done.
Qed.

(** X10: a widget without document context makes [opener.open] throw, but
    only at the end: by then the widget has its id and its ['type'] entry,
    it has been added to the main area (when it was not attached) and
    activated, and the id counter has moved.  The tracked contexts and the
    trackers are untouched. *)
Theorem open_without_context_throws_late (w : Widget) (s : Session) :
  contextForWidget w = None →
  let r := opener_open_widget w s in
  r.2 = Throw "TypeError" ∧
  tracking r.1.2 = tracking s ∧
  widget_id r.1.1 ≠ "" ∧
  is_Some (title_dataset r.1.1 !! "type") ∧
  (isAttached w = false → AddToMainArea (widget_id r.1.1) ∈ shell_calls r.1.2) ∧
  last (shell_calls r.1.2) = Some (ActivateById (widget_id r.1.1)) ∧
  (widget_id w = "" → private_id r.1.2 = Private.increment (private_id s)).
Proof.
  intros Hc. cbv zeta.
  split; [by rewrite open_outcome, Hc|].
  split; [by rewrite open_tracking, Hc|].
  split; [|split; [|split; [|split]]].
  - rewrite open_widget_id. destruct (String.eqb (widget_id w) "") eqn:E; [done|].
    intros Heq. by rewrite Heq in E.
  - rewrite open_widget_dataset, lookup_union.
    rewrite lookup_singleton_eq. destruct (title_dataset w !! "type"); simpl; eauto.
  - intros Ha. rewrite open_shell_calls, Ha, !elem_of_app. right. left. left.
  - rewrite open_shell_calls, app_assoc. apply last_snoc.
  - intros Hid. by rewrite open_private_id, Hid.
Qed.

Lemma open_without_context_throws_late_witness :
  contextForWidget (mkWidget "" ∅ false None) = None ∧
  (opener_open_widget (mkWidget "" ∅ false None) new_session).2 = Throw "TypeError".
Proof.
  split; [reflexivity|].
  apply (open_without_context_throws_late (mkWidget "" ∅ false None) new_session).
  reflexivity.
Defined.

(** X11: what [opener.open] leaves of the widget.  An id the widget came
    with is kept and does not move the counter; every dataset entry it came
    with is kept, a ['type'] entry included, and the default
    ['document-title'] is only filled in when there was none. *)
Theorem open_keeps_what_is_set (w : Widget) (s : Session) :
  let r := opener_open_widget w s in
  (widget_id w ≠ "" → widget_id r.1.1 = widget_id w ∧ private_id r.1.2 = private_id s) ∧
  (∀ k v, title_dataset w !! k = Some v → title_dataset r.1.1 !! k = Some v) ∧
  (title_dataset w !! "type" = None →
   title_dataset r.1.1 !! "type" = Some "document-title") ∧
  (∀ k, k ≠ "type" → title_dataset r.1.1 !! k = title_dataset w !! k).
Proof.
  cbv zeta. split; [|split; [|split]].
  - intros Hne. rewrite open_widget_id, open_private_id.
    destruct (String.eqb (widget_id w) "") eqn:E; [|done].
    by apply String.eqb_eq in E.
  - intros k v Hk. rewrite open_widget_dataset, lookup_union, Hk.
    by destruct ({["type" := "document-title"]} !! k).
  - intros Hk. by rewrite open_widget_dataset, lookup_union, Hk, lookup_singleton_eq.
  - intros k Hk. rewrite open_widget_dataset, lookup_union, lookup_singleton_ne by done.
    by destruct (title_dataset w !! k).
Qed.

Lemma open_all_tracking ws s :
  tracking (open_all ws s).2 = world_run (tracking s) (Open ∘ contextForWidget <$> ws).
Proof.
  revert s. induction ws as [|w ws IH]; intros s; [done|]. simpl.
  pose proof (open_tracking w s) as Hw.
  destruct (opener_open_widget w s) as [[w' s'] out]. simpl in Hw.
  specialize (IH s'). destruct (open_all ws s') as [ws' s'']. simpl in *.
  by rewrite IH, Hw.
Qed.

Lemma world_run_opens_contexts w (cs : list (option Context)) c :
  c ∈ contexts (world_run w (Open <$> cs)) ↔ c ∈ contexts w ∨ Some c ∈ cs.
Proof.
  induction cs as [|o cs IH] using rev_ind.
  - simpl. rewrite elem_of_nil. tauto.
  - rewrite fmap_app. change (Open <$> [o]) with [Open o].
    rewrite world_run_snoc, elem_of_app, list_elem_of_singleton. simpl.
    destruct o as [c'|]; simpl.
    + case_decide as Hin; simpl.
      * rewrite IH. split; [tauto|]. intros [?|[?|[= ->]]]; auto. by apply IH.
      * rewrite elem_of_union, elem_of_singleton, IH.
        split; [intros [->|[?|?]]; auto | intros [?|[?|[= ->]]]; auto].
    + rewrite IH. split; [tauto|]. intros [?|[?|?]]; auto. discriminate.
Qed.

(** X12: one tracker per document, however many widgets show it.  After
    any sequence of widgets is opened in a new session, the tracked contexts
    are exactly the contexts of those widgets, and [handleContext] has run
    once for each of them. *)
Theorem one_tracker_per_document (ws : list Widget) :
  let w := tracking (open_all ws new_session).2 in
  (∀ c, c ∈ contexts w ↔ Some c ∈ contextForWidget <$> ws) ∧
  NoDup (trackers w).*1 ∧
  (∀ c, c ∈ contexts w ↔ c ∈ (trackers w).*1) ∧
  length (trackers w) = size (contexts w).
Proof.
  cbv zeta. rewrite open_all_tracking. simpl.
  destruct (world_run_tracked_once (Open ∘ contextForWidget <$> ws)) as [Hnd Hiff].
  split; [|split; [done|split; [done|]]].
  - intros c. rewrite list_fmap_compose, world_run_opens_contexts.
    simpl. rewrite elem_of_empty. tauto.
  - rewrite <- (length_fmap fst). symmetry.
    rewrite <- (size_list_to_set (C := gset Context)) by done.
    f_equal. apply set_eq. intros c. rewrite elem_of_list_to_set. apply Hiff.
Qed.

(** * The commands *)

(** X13: the commands that need a document are enabled together.  The
    save, save-as, restore-checkpoint and rename commands do something
    exactly when [isEnabled] holds: a current widget that has a document
    context.  The visibility test of rename and clone holds then too, but it
    is wider: for a current widget without context it still holds when the
    document manager reports the missing context as [undefined] rather than
    [null]. *)
Theorem document_commands_enabled_together
    (settle : DocCall → Completion unit) (readOnly : Context → bool)
    (context_path : Context → string) (absent : Absent) (current : option Widget) :
  (isEnabled current = true → rename_isVisible absent current = VBool true) ∧
  (truthy (rename_isVisible absent current) = true ∧ isEnabled current = false ↔
   absent = AbsentUndefined ∧ ∃ w, current = Some w ∧ contextForWidget w = None) ∧
  (isEnabled current = true ↔ is_Some (current_context current)) ∧
  (is_Some (save_execute settle readOnly current) ↔ isEnabled current = true) ∧
  (is_Some (saveAs_execute settle current) ↔ isEnabled current = true) ∧
  (is_Some (restoreCheckpoint_execute settle readOnly current) ↔ isEnabled current = true) ∧
  (is_Some (rename_execute settle context_path current) ↔ isEnabled current = true).
Proof.
  unfold save_execute, saveAs_execute, restoreCheckpoint_execute, rename_execute.
  destruct current as [[i d a [c|]]|]; simpl.
  - split; [done|]. split.
    { split; [by intros [_ [=]] | by intros (_ & w & [= <-] & [=])]. }
    destruct (readOnly c); repeat split; eauto.
  - split; [done|]. split.
    { destruct absent; simpl; split.
      - by intros [[=] _].
      - by intros [[=] _].
      - intros _. split; [done|]. eauto.
      - done. }
    repeat split; try done; by intros [? ?].
  - split; [done|]. split.
    { split; [by intros [[=] _] | by intros (_ & w & [=] & _)]. }
    repeat split; try done; by intros [? ?].
Qed.

(** Membership in a list of calls written out. *)
Ltac calls_made :=
  repeat match goal with
  | H : _ ∈ [] |- _ => by apply elem_of_nil in H
  | H : _ ∈ _ :: _ |- _ => apply elem_of_cons in H as [H | H]
  end.

(** X14: the checkpoint discipline of save, save-as and restore-checkpoint.
    Save never calls [context.save] on a read-only document (it only shows
    the dialog); a checkpoint is created only right after a save or save-as
    that succeeded; restore-checkpoint reverts a read-only document without
    touching its checkpoints, and otherwise reverts only after the checkpoint
    was restored.  Every call concerns the context of the current widget. *)
Theorem checkpoint_discipline
    (settle : DocCall → Completion unit) (readOnly : Context → bool)
    (current : option Widget) (c : Context) :
  (∀ made outcome, save_execute settle readOnly current = Some (made, outcome) →
     (ContextSave c ∈ made → current_context current = Some c ∧ readOnly c = false) ∧
     (ContextCreateCheckpoint c ∈ made →
        settle (ContextSave c) = Normal () ∧
        made = [ContextSave c; ContextCreateCheckpoint c]) ∧
     (current_context current = Some c → readOnly c = true →
        made = [ShowDialog "Cannot Save" "Document is read-only"])) ∧
  (∀ made outcome, saveAs_execute settle current = Some (made, outcome) →
     (ContextCreateCheckpoint c ∈ made →
        settle (ContextSaveAs c) = Normal () ∧
        made = [ContextSaveAs c; ContextCreateCheckpoint c]) ∧
     (current_context current = Some c → hd_error made = Some (ContextSaveAs c))) ∧
  (∀ made outcome, restoreCheckpoint_execute settle readOnly current = Some (made, outcome) →
     (ContextRestoreCheckpoint c ∈ made →
        current_context current = Some c ∧ readOnly c = false) ∧
     (ContextRevert c ∈ made →
        current_context current = Some c ∧
        (readOnly c = true ∧ made = [ContextRevert c] ∨
         settle (ContextRestoreCheckpoint c) = Normal () ∧
         made = [ContextRestoreCheckpoint c; ContextRevert c]))).
Proof.
  unfold save_execute, saveAs_execute, restoreCheckpoint_execute, call, then_.
  destruct current as [[i d a [c0|]]|]; simpl;
    (split; [|split]); intros made outcome Hsome; try discriminate;
    repeat case_match; simplify_eq;
    repeat match goal with u : unit |- _ => destruct u end;
    repeat split; intros; calls_made; simplify_eq; auto; congruence.
Qed.

Lemma js_or_truthy a b : truthy b = true → truthy (js_or a b) = true.
Proof. unfold js_or. by destruct (truthy a) eqn:E. Qed.

Lemma js_or_undefined a : js_or a VUndefined = VUndefined ∨ truthy (js_or a VUndefined) = true.
Proof. unfold js_or. destruct (truthy a) eqn:E; auto. Qed.

(** X15: the open command looks before it opens.  It first asks the
    contents service for the path; [openOrReveal] is called only when that
    succeeded, with the same path, and with a factory and a kernel that are
    either given and truthy or [undefined].  When the path does not resolve
    the command is rejected for that reason and nothing is opened. *)
Theorem open_looks_before_it_opens
    (settle : DocCall → Completion unit) (args : gmap string JSValue) :
  let path := path_arg args in
  let p := open_execute settle args in
  hd_error p.1 = Some (ContentsGet path) ∧
  (∀ path' factory kernel, OpenOrReveal path' factory kernel ∈ p.1 →
     settle (ContentsGet path) = Normal () ∧ path' = path ∧
     p = ([ContentsGet path; OpenOrReveal path factory kernel],
          settle (OpenOrReveal path factory kernel)) ∧
     (factory = VUndefined ∨ truthy factory = true) ∧
     (kernel = VUndefined ∨ truthy kernel = true)) ∧
  (∀ reason, settle (ContentsGet path) = Throw reason →
     p = ([ContentsGet path], Throw reason)).
Proof.
  cbv zeta. unfold open_execute, then_, call.
  destruct (settle (ContentsGet (path_arg args))) as [[]|reason] eqn:E; simpl.
  - split; [done|]. split; [|done].
    intros path' factory kernel Hin. calls_made; simplify_eq.
    repeat split; auto using js_or_undefined.
  - split; [done|]. split; [|by intros ? [= <-]].
    intros path' factory kernel Hin. calls_made; simplify_eq.
Qed.

(** X16: the three commands that take a path read it the same way, and only
    delete insists on one.  Without a [path] argument delete-file throws
    before calling anything, while open asks the contents service for the
    empty path and new-untitled creates in the empty path. *)
Theorem missing_path_only_stops_delete {R : Type} (deleteFile : JSValue → R)
    (settle : DocCall → Completion unit) (args : gmap string JSValue) :
  args !! "path" = None →
  (∃ message, deleteFile_execute deleteFile args = ([], Throw message)) ∧
  hd_error (open_execute settle args).1 = Some (ContentsGet (VString "")) ∧
  options_path (newUntitled_options args) = VString "" ∧
  hd_error (newUntitled_execute settle args).1
    = Some (ContentsNewUntitled (newUntitled_options args)).
Proof.
  intros Hp.
  assert (Hpath : path_arg args = VString "").
  { unfold path_arg, arg. by rewrite Hp. }
  split; [|split; [|split]].
  - unfold deleteFile_execute, arg. rewrite Hp. simpl. eauto.
  - unfold open_execute, then_, call. rewrite Hpath.
    by destruct (settle (ContentsGet (VString ""))).
  - unfold newUntitled_options. by rewrite Hpath.
  - unfold newUntitled_execute, catch_, call.
    by destruct (settle (ContentsNewUntitled (newUntitled_options args))).
Qed.

Lemma missing_path_only_stops_delete_witness :
  ({["type" := VString "notebook"]} : gmap string JSValue) !! "path" = None ∧
  options_path (newUntitled_options {["type" := VString "notebook"]}) = VString "".
Proof.
  split; [reflexivity|].
  apply (missing_path_only_stops_delete (fun path => path) (fun _ => Normal ())
           {["type" := VString "notebook"]}).
  reflexivity.
Defined.

(** X17: new-untitled sets a file extension exactly when the type is the
    string ['file'], and then never an empty one: the [ext] argument if it is
    truthy, ['.txt'] otherwise. *)
Theorem newUntitled_extension (args : gmap string JSValue) :
  let options := newUntitled_options args in
  (is_Some (options_ext options) ↔ arg args "type" = VString "file") ∧
  options_type options = arg args "type" ∧
  (∀ ext, options_ext options = Some ext →
     truthy ext = true ∧
     (truthy (arg args "ext") = true → ext = arg args "ext") ∧
     (truthy (arg args "ext") = false → ext = VString ".txt")).
Proof.
  cbv zeta. unfold newUntitled_options. simpl.
  assert (Hfile : strict_eq_string (arg args "type") "file" = true
                  ↔ arg args "type" = VString "file").
  { destruct (arg args "type") as [| | | |s| |]; simpl; try (split; discriminate).
    rewrite String.eqb_eq. split; [by intros -> | by intros [= ->]]. }
  destruct (strict_eq_string (arg args "type") "file").
  - split; [|split; [done|]].
    + split; [intros _; by apply Hfile | eauto].
    + intros ext [= <-]. unfold js_or.
      destruct (truthy (arg args "ext")) eqn:E; by repeat split.
  - split; [|split; [done|by intros ext [=]]].
    split; [by intros [? [=]] | intros Ht; apply Hfile in Ht; discriminate].
Qed.

(** X18: new-untitled does not pass a failed creation on.  When
    [contents.newUntitled] is rejected the reason is shown with
    [showErrorMessage], under a title that is never empty, and the command
    settles as that dialog does; when the creation succeeds no dialog is
    shown. *)
Theorem newUntitled_reports_failure
    (settle : DocCall → Completion unit) (args : gmap string JSValue) :
  let create := ContentsNewUntitled (newUntitled_options args) in
  let title := js_or (arg args "error") (VString "Error") in
  let p := newUntitled_execute settle args in
  truthy title = true ∧
  (settle create = Normal () → p = ([create], Normal ())) ∧
  (∀ reason, settle create = Throw reason →
     p = ([create; ShowErrorMessage title reason],
          settle (ShowErrorMessage title reason))) ∧
  (∀ t reason, ShowErrorMessage t reason ∈ p.1 →
     t = title ∧ settle create = Throw reason).
Proof.
  cbv zeta. unfold newUntitled_execute, catch_, call.
  split; [by apply js_or_truthy|].
  destruct (settle (ContentsNewUntitled (newUntitled_options args))) as [[]|reason]; simpl.
  - split; [done|]. split; [done|]. intros t r Hin. calls_made; simplify_eq.
  - split; [done|]. split; [by intros ? [= <-]|].
    intros t r Hin. calls_made; simplify_eq. done.
Qed.

(** X19: the mnemonic of the open command is never [0]: a [mnemonic]
    argument that is missing, [0] or otherwise falsy gives [-1] (no
    mnemonic), so the first character of a label cannot be asked for; a
    truthy argument is handed back as it is.  The label falls back to the
    factory name and the icon to the empty string in the same way. *)
Theorem open_mnemonic_never_zero (args : gmap string JSValue) :
  truthy (open_mnemonic args) = true ∧
  open_mnemonic args ≠ VNumber 0 ∧
  (truthy (arg args "mnemonic") = false → open_mnemonic args = VNumber (-1)) ∧
  (truthy (arg args "mnemonic") = true → open_mnemonic args = arg args "mnemonic") ∧
  (truthy (arg args "label") = false → open_label args = arg args "factory") ∧
  (truthy (arg args "icon") = false → open_icon args = VString "").
Proof.
  unfold open_mnemonic, open_label, open_icon, js_or.
  assert (Ht : truthy (if truthy (arg args "mnemonic") then arg args "mnemonic"
                       else VNumber (-1)) = true).
  { by destruct (truthy (arg args "mnemonic")) eqn:E. }
  split; [exact Ht|]. split; [|repeat split; by intros ->].
  intros Hz. rewrite Hz in Ht. discriminate Ht.
Qed.

(** X20: a new view on a tracked document shares its tracker.  When
    clone is run on the current widget and the clone shows a context that is
    already tracked, the clone is opened (it gets an id and is activated)
    but [handleContext] does not run again: contexts, trackers and the
    application are exactly as before. *)
Theorem clone_shares_the_tracker (cloneWidget : Widget → option Widget)
    (w child : Widget) (s : Session) (c : Context) :
  cloneWidget w = Some child →
  contextForWidget child = Some c →
  c ∈ contexts (tracking s) →
  let r := clone_execute cloneWidget (Some w) s in
  r.2 = Normal () ∧
  tracking r.1.2 = tracking s ∧
  ∃ child', r.1.1 = Some child' ∧
            contextForWidget child' = Some c ∧
            widget_id child' ≠ "" ∧
            last (shell_calls r.1.2) = Some (ActivateById (widget_id child')).
Proof.
  intros Hclone Hc Hin. cbv zeta. unfold clone_execute. rewrite Hclone.
  pose proof (open_outcome child s) as Hout.
  pose proof (open_tracking child s) as Htr.
  pose proof (open_widget_context child s) as Hctx.
  pose proof (open_widget_id child s) as Hid.
  pose proof (open_shell_calls child s) as Hsh.
  destruct (opener_open_widget child s) as [[child' s'] out]. simpl in *.
  rewrite Hc in Hout, Htr, Hctx. split; [done|]. split.
  - rewrite Htr. simpl. by rewrite decide_True.
  - exists child'. split; [done|]. split; [done|]. split.
    + rewrite Hid. destruct (String.eqb (widget_id child) "") eqn:E; [done|].
      intros Heq. by rewrite Heq in E.
    + rewrite Hsh, app_assoc. apply last_snoc.
Qed.

Lemma clone_shares_the_tracker_witness :
  tracking (clone_execute (fun w => Some (mkWidget "" ∅ false (contextForWidget w)))
              (Some (mkWidget "document-manager-1" ∅ true (Some 0)))
              (opener_open_widget (mkWidget "" ∅ false (Some 0)) new_session).1.2).1.2
  = tracking (opener_open_widget (mkWidget "" ∅ false (Some 0)) new_session).1.2.
Proof.
  apply (clone_shares_the_tracker
           (fun w => Some (mkWidget "" ∅ false (contextForWidget w)))
           (mkWidget "document-manager-1" ∅ true (Some 0))
           (mkWidget "" ∅ false (Some 0))
           (opener_open_widget (mkWidget "" ∅ false (Some 0)) new_session).1.2 0);
    [reflexivity | reflexivity | by vm_compute].
Defined.
